(** * Filterbank files: the header reader and the sample view of
    [lib/python/filterbank.py], embedded as executable definitions.

    The module reads a header of tagged records, derives the geometry of
    the data region from it and exposes the samples as a two-dimensional
    view addressed by spectrum index or by time.  Python values are
    modelled as follows: ints are [Z] (Python ints do not wrap), floats
    are binary64 primitive floats, byte strings are [list byte], the
    header [dict] is a [gmap string value], exceptions are the [Raise]
    branch of [result]. *)

From Stdlib Require Import ZArith List String Ascii Bool Lia Floats Uint63.
From Stdlib Require Import Strings.Byte.
From stdpp Require Import gmap strings list pretty sorting.

Local Open Scope Z_scope.

(** ** Exceptions and results *)

(** The Python exceptions the module can raise, with the spec's names
    for them in brackets. *)
Inductive exn : Type :=
| NameError (name : string)
| AttributeError (attr : string)
| IOError (msg : string)
| MalformedHeader (name : string)
| TypeMismatch (name : string)
| KeyError (key : string)              (* [UnknownField] *)
| TypeError (msg : string)
| ZeroDivisionError
| NotImplementedError (nbits : Z)      (* [UnsupportedSampleWidth] *)
| ValueError (msg : string)            (* [NotFound] at open *)
| OverflowError.

Inductive result (A : Type) : Type :=
| Ok (a : A)
| Raise (e : exn).
Arguments Ok {A} a.
Arguments Raise {A} e.

#[global] Instance result_ret : MRet result := fun _ a => Ok a.
#[global] Instance result_bind : MBind result := fun _ _ f r =>
  match r with
  | Ok a => f a
  | Raise e => Raise e
  end.

Definition is_ok {A} (r : result A) : bool :=
  match r with Ok _ => true | Raise _ => false end.

(** ** Bytes and fixed-width integers *)

Definition byte_of_Z (z : Z) : byte :=
  match Byte.of_N (Z.to_N (z mod 256)) with
  | Some b => b
  | None => x00
  end.

Definition Z_of_byte (b : byte) : Z := Z.of_N (Byte.to_N b).

(** Little-endian bytes of the low [8 * n] bits of [z]. *)
Fixpoint le_bytes (n : nat) (z : Z) : list byte :=
  match n with
  | O => []
  | S n' => byte_of_Z z :: le_bytes n' (z / 256)
  end.

(** The unsigned value of a little-endian byte string. *)
Fixpoint le_value (bs : list byte) : Z :=
  match bs with
  | [] => 0
  | b :: bs' => Z_of_byte b + 256 * le_value bs'
  end.

(** Two's complement reading of a [w]-bit unsigned value. *)
Definition to_signed (w : Z) (u : Z) : Z :=
  if u <? 2 ^ (w - 1) then u else u - 2 ^ w.

(** ** Binary64 values and their bit patterns *)

Definition float_of_bits (b : Z) : float :=
  let s := Z.testbit b 63 in
  let e := (b / 2 ^ 52) mod 2 ^ 11 in
  let m := b mod 2 ^ 52 in
  SF2Prim
    (if e =? 0 then
       if m =? 0 then S754_zero s else S754_finite s (Z.to_pos m) (-1074)
     else if e =? 2047 then
       if m =? 0 then S754_infinity s else S754_nan
     else S754_finite s (Z.to_pos (m + 2 ^ 52)) (e - 1075)).

Definition bits_of_float (f : float) : Z :=
  let sign (s : bool) := if s then 2 ^ 63 else 0 in
  match Prim2SF f with
  | S754_zero s => sign s
  | S754_infinity s => sign s + 2047 * 2 ^ 52
  | S754_nan => 2047 * 2 ^ 52 + 2 ^ 51
  | S754_finite s m e =>
      if Z.pos m <? 2 ^ 52 then sign s + Z.pos m
      else sign s + (e + 1075) * 2 ^ 52 + (Z.pos m - 2 ^ 52)
  end.

Definition is_finite_float (f : float) : bool :=
  match Prim2SF f with
  | S754_zero _ | S754_finite _ _ _ => true
  | S754_infinity _ | S754_nan => false
  end.

(** The double nearest to a Python int, as [float(n)] and numpy's
    int64-to-float64 cast give it; exact below [2^53]. *)
Definition float_of_Z (z : Z) : float :=
  if z <? 0 then (- of_uint63 (Uint63.of_Z (- z)))%float
  else of_uint63 (Uint63.of_Z z).

(** ** Python values and files *)

(** The values a header field can hold: [None] for the two sentinels, an
    int, a float or a string. *)
Inductive value : Type :=
| VNone
| VInt (z : Z)
| VFloat (f : float)
| VStr (s : string).

(** An open binary file: its bytes and the current position. *)
Record pyfile : Type := mk_pyfile {
  contents : list byte;
  position : nat
}.

Definition tell (f : pyfile) : nat := position f.

Definition seek (f : pyfile) (p : nat) : pyfile :=
  {| contents := contents f; position := p |}.

(** [file.read(n)]: up to [n] bytes from the position, fewer at the end
    of the file. *)
Definition read (f : pyfile) (n : nat) : list byte * pyfile :=
  let bs := take n (drop (position f) (contents f)) in
  (bs, seek f (position f + length bs)%nat).

(** A file system: the regular files by path. *)
Abbreviation filesystem := (gmap string (list byte)).

(** The bytes still ahead of the position. *)
Definition remaining (f : pyfile) : nat :=
  (length (contents f) - position f)%nat.

(** ** The record codec of [sigproc]

    [filterbank.py] imports [sigproc] and calls its [read_hdr_val] and
    [addto_hdr]; the module is not among the files at hand. *)
Module sigproc.

(** What follows a field name on the wire. *)
Inductive ftype : Type := TFlag | TStr | TInt | TDouble.

(** Modelled from the spec: the closed table from field name to value
    type that [sigproc] keeps.  The spec fixes the two value-less
    sentinels, the five geometry fields with their types, and names a
    source name and an observation start time as pass-through fields. *)
Definition header_table : list (string * ftype) :=
  [ ("HEADER_START", TFlag); ("HEADER_END", TFlag);
    ("fch1", TDouble); ("foff", TDouble);
    ("nchans", TInt); ("nbits", TInt); ("tsamp", TDouble);
    ("source_name", TStr); ("tstart", TDouble) ].

Definition header_params (name : string) : option ftype :=
  snd <$> List.find (fun p => String.eqb (fst p) name) header_table.

(** Modelled from the spec: a length-prefixed string.  The spec leaves
    the width of the prefix and the byte order open; the prefix is taken
    as four bytes, and every number as little-endian. *)
Definition prep_string (s : string) : list byte :=
  let bs := list_byte_of_string s in
  le_bytes 4 (Z.of_nat (length bs)) ++ bs.

(** Modelled from the spec: reading a length-prefixed string; [IOError]
    when the stream ends inside it. *)
Definition read_string (f : pyfile) : result (string * pyfile) :=
  let '(lenb, f1) := read f 4 in
  if (length lenb <? 4)%nat then Raise (IOError "truncated stream")
  else
    let n := Z.to_nat (le_value lenb) in
    let '(sb, f2) := read f1 n in
    if (length sb <? n)%nat then Raise (IOError "truncated stream")
    else Ok (string_of_list_byte sb, f2).

(** Modelled from the spec: a 32-bit signed int. *)
Definition read_int (f : pyfile) : result (Z * pyfile) :=
  let '(bs, f1) := read f 4 in
  if (length bs <? 4)%nat then Raise (IOError "truncated stream")
  else Ok (to_signed 32 (le_value bs), f1).

(** Modelled from the spec: a 64-bit double. *)
Definition read_double (f : pyfile) : result (float * pyfile) :=
  let '(bs, f1) := read f 8 in
  if (length bs <? 8)%nat then Raise (IOError "truncated stream")
  else Ok (float_of_bits (le_value bs), f1).

(** Modelled from the spec: one record decode.  Read a length-prefixed
    name; a sentinel carries no value; any other name is looked up in
    the table and exactly that encoding is read; a name outside the
    table fails with [MalformedHeader]. *)
Definition read_hdr_val (f : pyfile) : result ((string * value) * pyfile) :=
  '(paramname, f1) ← read_string f;
  match header_params paramname with
  | None => Raise (MalformedHeader paramname)
  | Some TFlag => Ok ((paramname, VNone), f1)
  | Some TStr =>
      '(s, f2) ← read_string f1; Ok ((paramname, VStr s), f2)
  | Some TInt =>
      '(z, f2) ← read_int f1; Ok ((paramname, VInt z), f2)
  | Some TDouble =>
      '(x, f2) ← read_double f1; Ok ((paramname, VFloat x), f2)
  end.

(** Modelled from the spec: one record encode, the mirror image of
    [read_hdr_val]; a value whose type is not the one the table gives
    its name fails with [TypeMismatch]. *)
Definition addto_hdr (paramname : string) (val : value) : result (list byte) :=
  match header_params paramname, val with
  | Some TFlag, VNone => Ok (prep_string paramname)
  | Some TStr, VStr s => Ok (prep_string paramname ++ prep_string s)
  | Some TInt, VInt z =>
      if (- 2 ^ 31 <=? z) && (z <? 2 ^ 31)
      then Ok (prep_string paramname ++ le_bytes 4 z)
      else Raise (TypeMismatch paramname)
  | Some TDouble, VFloat x =>
      Ok (prep_string paramname ++ le_bytes 8 (bits_of_float x))
  | _, _ => Raise (TypeMismatch paramname)
  end.

End sigproc.

(** ** [read_header] *)

(** [open(filename, 'rb')]. *)
Definition open_rb (fs : filesystem) (filename : string) : result pyfile :=
  match fs !! filename with
  | Some bs => Ok {| contents := bs; position := 0 |}
  | None => Raise (IOError "No such file or directory")
  end.

(** [paramname in ["HEADER_START", "HEADER_END"]]. *)
Definition is_sentinel (paramname : string) : bool :=
  String.eqb paramname "HEADER_START" || String.eqb paramname "HEADER_END".

(** The [while] loop of [read_header] (lines 83-90), one iteration per
    unit of [fuel]: the test on [paramname] comes first, then one record
    is read and stored unless its name is a sentinel.  [None] stands for
    a loop that has not finished within [fuel] iterations. *)
Fixpoint read_header_loop (fuel : nat) (paramname : string)
    (header : gmap string value) (filfile : pyfile)
    : option (result (gmap string value * nat)) :=
  if String.eqb paramname "HEADER_END" then Some (Ok (header, tell filfile))
  else
    match fuel with
    | O => None
    | S fuel' =>
        match sigproc.read_hdr_val filfile with
        | Raise e => Some (Raise e)
        | Ok ((paramname', val), filfile') =>
            let header' :=
              if is_sentinel paramname' then header
              else <[paramname' := val]> header in
            read_header_loop fuel' paramname' header' filfile'
        end
    end.

(** [read_header(filename)] (lines 66-93).  Every record read moves the
    position forward, so the loop ends within [S (remaining filfile)]
    iterations ([read_header_loop_total] below); the [None] branch is
    never taken. *)
Definition read_header (fs : filesystem) (filename : string)
    : result (gmap string value * nat) :=
  filfile ← open_rb fs filename;
  let filfile := seek filfile 0 in
  match read_header_loop (S (remaining filfile)) "" ∅ filfile with
  | Some r => r
  | None => Raise (IOError "header not terminated")
  end.

(** ** [get_dtype] and the numpy operations the module uses *)

(** [get_dtype(nbits)] (lines 43-63).  The exception carries [nbits];
    its message is not modelled.  The code builds the message with
    [%g], which converts [nbits] to a double first: the model is that of
    the code for every int the conversion accepts, as every 32-bit
    header int is, and the properties of [get_dtype] below are stated
    for [|nbits| < 2^1023]. *)
Definition get_dtype (nbits : Z) : result string :=
  if negb (bool_decide (nbits ∈ [32; 16; 8])) then
    Raise (NotImplementedError nbits)
  else if nbits =? 32 then Ok "float32"
  else Ok (String.append "uint" (pretty nbits)).

(** The item size in bytes of the dtypes numpy knows by these names. *)
Definition dtype_itemsize (dtype : string) : option nat :=
  if String.eqb dtype "uint8" then Some 1%nat
  else if String.eqb dtype "uint16" then Some 2%nat
  else if String.eqb dtype "float32" then Some 4%nat
  else None.

(** [np.arange(n)]: the ints [0 .. n-1], empty for [n <= 0]. *)
Definition np_arange (n : Z) : list Z :=
  map Z.of_nat (seq 0 (Z.to_nat n)).

(** [n] consecutive chunks of [k] elements each. *)
Fixpoint chunks {A} (k n : nat) (l : list A) : list (list A) :=
  match n with
  | O => []
  | S n' => take k l :: chunks k n' (drop k l)
  end.

(** A two-dimensional view of a file's bytes: every row is one spectrum,
    every sample the bytes of one item of the dtype. *)
Record memmap : Type := mk_memmap {
  dtype : string;
  shape : Z * Z;
  rows : list (list (list byte))
}.

(** [np.memmap(filename, dtype=, mode=, offset=, shape=(n0, n1))]: numpy
    refuses a mapping longer than the file and a negative dimension; it
    compares the mapped length with the file before it builds the array
    of that shape. *)
Definition np_memmap (file : list byte) (dt : string) (offset : nat)
    (shp : Z * Z) : result memmap :=
  match dtype_itemsize dt with
  | None => Raise (TypeError "data type not understood")
  | Some w =>
      let '(n0, n1) := shp in
      let data := drop offset file in
      if Z.of_nat (length data) <? n0 * n1 * Z.of_nat w then
        Raise (ValueError "mmap length is greater than file size")
      else if (n0 <? 0) || (n1 <? 0) then
        Raise (ValueError "negative dimensions are not allowed")
      else
        let row_bytes := (Z.to_nat n1 * w)%nat in
        Ok {| dtype := dt; shape := shp;
              rows := map (chunks w (Z.to_nat n1))
                          (chunks row_bytes (Z.to_nat n0) data) |}
  end.

(** A bound of a Python slice over [n] items: a negative index counts
    from the end, and the outcome is clipped to [0 .. n]. *)
Definition slice_index (n i : Z) : Z :=
  if i <? 0 then Z.max (i + n) 0 else Z.min i n.

(** [l[start:stop]]. *)
Definition py_slice {A} (l : list A) (start stop : Z) : list A :=
  let n := Z.of_nat (length l) in
  let lo := slice_index n start in
  let hi := slice_index n stop in
  take (Z.to_nat (hi - lo)) (drop (Z.to_nat lo) l).

(** The integer nearest to [m * 2^e], a tie going to the even one. *)
Definition round_half_even (m e : Z) : Z :=
  if 0 <=? e then m * 2 ^ e
  else
    let d := 2 ^ (- e) in
    let q := m / d in
    match 2 * (m mod d) ?= d with
    | Lt => q
    | Gt => q + 1
    | Eq => if Z.even q then q else q + 1
    end.

(** [int(np.round(x))]: [np.round] rounds half to even to an integral
    double, which [int] converts exactly; [int] raises on NaN and on an
    infinity. *)
Definition int_np_round (x : float) : result Z :=
  match Prim2SF x with
  | S754_nan => Raise (ValueError "cannot convert float NaN to integer")
  | S754_infinity _ => Raise OverflowError
  | S754_zero _ => Ok 0
  | S754_finite s m e => Ok (cond_Zopp s (round_half_even (Z.pos m) e))
  end.

(** [x / y] on Python floats. *)
Definition py_float_div (x y : float) : result float :=
  if (y =? 0)%float then Raise ZeroDivisionError else Ok (x / y)%float.

(** [x / y] on Python 2 ints: floor division. *)
Definition py_int_div (x y : Z) : result Z :=
  if y =? 0 then Raise ZeroDivisionError else Ok (x / y).

(** ** [FilterbankFile] *)

Record FilterbankFile : Type := mk_FilterbankFile {
  filename : string;
  read_only : bool;
  header : gmap string value;
  header_size : nat;
  frequencies : list float;
  is_hifreq_first : bool;
  data_size : Z;
  bytes_per_spectrum : Z;
  nspec : Z;
  spectra : memmap
}.

(** [__getattr__] (lines 125-128): a name that is no attribute of the
    instance is looked up in the header; a missing key is a [KeyError]. *)
Definition getattr (hdr : gmap string value) (name : string) : result value :=
  match hdr !! name with
  | Some v => Ok v
  | None => Raise (KeyError name)
  end.

(** The header's table gives [fch1], [foff] and [tsamp] a double and
    [nchans] and [nbits] an int ([read_header_typed] below); a value of
    another type in their place is a [TypeError] in the arithmetic. *)
Definition as_float (v : value) : result float :=
  match v with
  | VFloat x => Ok x
  | _ => Raise (TypeError "unsupported operand type")
  end.

Definition as_int (v : value) : result Z :=
  match v with
  | VInt z => Ok z
  | _ => Raise (TypeError "unsupported operand type")
  end.

Definition warning_text : string := "Not an integer number of spectra in file.".

(** [FilterbankFile.__init__] (lines 97-115), on a file system.  The
    outcome is the list of the messages the module itself passes to
    [warnings.warn] (line 110) and the instance or the exception raised.
    A [RuntimeWarning] that numpy gives of its own accord while it
    evaluates line 103 (a product or a sum that overflows or is invalid)
    is no call of the module and is not in the list. *)
Definition FilterbankFile_init (fs : filesystem) (filfn : string)
    (ro : bool) : list string * result FilterbankFile :=
  let geometry :=
    match fs !! filfn with
    | None =>
        Raise (ValueError
                 (String.append "ERROR: File does not exist!"
                    (String "010" (String "009"
                       (String.append "(" (String.append filfn ")"))))))
    | Some file =>
        '(hdr, hsize) ← read_header fs filfn;
        fch1 ← getattr hdr "fch1" ≫= as_float;
        foff ← getattr hdr "foff" ≫= as_float;
        nchans ← getattr hdr "nchans" ≫= as_int;
        let freqs :=
          map (fun i => fch1 + foff * float_of_Z i)%float (np_arange nchans) in
        foff' ← getattr hdr "foff" ≫= as_float;
        let hifreq := (foff' <? 0)%float in
        let dsize := Z.of_nat (length file) - Z.of_nat hsize in
        nchans' ← getattr hdr "nchans" ≫= as_int;
        nbits ← getattr hdr "nbits" ≫= as_int;
        bps ← py_int_div (nchans' * nbits) 8;
        n ← py_int_div dsize bps;
        Ok (file, hdr, hsize, freqs, hifreq, dsize, bps, n)
    end in
  match geometry with
  | Raise e => ([], Raise e)
  | Ok (file, hdr, hsize, freqs, hifreq, dsize, bps, n) =>
      let warned := if dsize mod bps =? 0 then [] else [warning_text] in
      (warned,
       nbits ← getattr hdr "nbits" ≫= as_int;
       dt ← get_dtype nbits;
       nchans ← getattr hdr "nchans" ≫= as_int;
       mm ← np_memmap file dt hsize (n, nchans);
       Ok {| filename := filfn; read_only := ro;
             header := hdr; header_size := hsize;
             frequencies := freqs; is_hifreq_first := hifreq;
             data_size := dsize; bytes_per_spectrum := bps; nspec := n;
             spectra := mm |})
  end.

(** [get_spectra] (lines 122-123): [self.spectra[start:stop]]. *)
Definition get_spectra (self : FilterbankFile) (start stop : Z)
    : list (list (list byte)) :=
  py_slice (rows (spectra self)) start stop.

(** [get_timeslice] (lines 117-120). *)
Definition get_timeslice (self : FilterbankFile) (start stop : float)
    : result (list (list (list byte))) :=
  tsamp ← getattr (header self) "tsamp" ≫= as_float;
  q ← py_float_div start tsamp;
  startbins ← int_np_round q;
  tsamp' ← getattr (header self) "tsamp" ≫= as_float;
  q' ← py_float_div stop tsamp';
  stopbins ← int_np_round q';
  Ok (get_spectra self startbins stopbins).

(** ** [create_filterbank_file] *)

(** The objects a name of the module can be bound to. *)
Inductive pyobj : Type :=
| PNone
| PBool (b : bool)
| PStr (s : string)
| PDict (d : gmap string value)
| PFile (path : string)
| PModule (name : string)
| PFunction (name : string)
| PClass (name : string)
| PInstance (inst : FilterbankFile).

(** The module's global names once it is loaded (lines 8-15 and the
    [def] and [class] statements), followed by the builtins it uses. *)
Definition module_globals : list (string * pyobj) :=
  [ ("sys", PModule "sys"); ("warnings", PModule "warnings");
    ("os", PModule "os"); ("np", PModule "numpy");
    ("sigproc", PModule "sigproc"); ("DEBUG", PBool false);
    ("create_filterbank_file", PFunction "create_filterbank_file");
    ("get_dtype", PFunction "get_dtype");
    ("read_header", PFunction "read_header");
    ("FilterbankFile", PClass "FilterbankFile");
    ("main", PFunction "main");
    ("open", PFunction "open"); ("int", PClass "int");
    ("sorted", PFunction "sorted"); ("None", PNone) ].

(** A name that a function does not assign is looked up in the globals
    and builtins; [NameError] when it is bound in neither. *)
Definition load_global (name : string) : result pyobj :=
  match List.find (fun p => String.eqb (fst p) name) module_globals with
  | Some (_, o) => Ok o
  | None => Raise (NameError name)
  end.

(** [outfile.write(bs)] on the file at [path], as the bytes reach the
    file: a file object keeps them in its buffer until it is flushed,
    closed or reclaimed. *)
Definition fwrite (fs : filesystem) (path : string) (bs : list byte)
    : filesystem :=
  <[path := (default [] (fs !! path) ++ bs)%list]> fs.

(** The truth value of the [spectra] argument: [None] is false, an array
    of more than one element has no truth value. *)
Definition spectra_truth (spectra : option (list (list (list byte))))
    : result bool :=
  match spectra with
  | None => Ok false
  | Some a =>
      match concat a with
      | [] => Ok false
      | [x] => Ok (negb (le_value x =? 0))
      | _ => Raise (ValueError "The truth value of an array is ambiguous")
      end
  end.

(** Lines 32-36: one header record per key of [self.header]. *)
Fixpoint write_params (fs : filesystem) (outfn : string)
    (hdr : gmap string value) (keys : list string)
    : filesystem * result unit :=
  match keys with
  | [] => (fs, Ok tt)
  | paramname :: keys' =>
      match getattr hdr paramname ≫= sigproc.addto_hdr paramname with
      | Raise e => (fs, Raise e)
      | Ok bs => write_params (fwrite fs outfn bs) outfn hdr keys'
      end
  end.

(** Lines 32-40 once [self] is bound to [self_obj]: only an instance of
    [FilterbankFile] has the attributes [header] and [spectra], and its
    [dtype] goes through [__getattr__] to the header. *)
Definition create_body (fs : filesystem) (outfn : string) (self_obj : pyobj)
    (arr : option (list (list (list byte)))) : filesystem * result unit :=
  match self_obj with
  | PInstance inst =>
      let keys := (map_to_list (header inst)).*1 in
      match write_params fs outfn (header inst) keys with
      | (fs1, Raise e) => (fs1, Raise e)
      | (fs1, Ok _) =>
          match sigproc.addto_hdr "HEADER_END" VNone with
          | Raise e => (fs1, Raise e)
          | Ok bs =>
              let fs2 := fwrite fs1 outfn bs in
              match spectra_truth arr with
              | Raise e => (fs2, Raise e)
              | Ok false => (fs2, Ok tt)
              | Ok true =>
                  match getattr (header inst) "dtype" with
                  | Raise e => (fs2, Raise e)
                  | Ok _ =>
                      (fwrite fs2 outfn (concat (concat (rows (spectra inst)))),
                       Ok tt)
                  end
              end
          end
      end
  | _ => (fs, Raise (AttributeError "header"))
  end.

(** [create_filterbank_file(outfn, header, spectra, verbose)] (lines
    17-40).  The function opens [outfn] for writing, writes the start
    sentinel and then evaluates [self.header.keys()]: [self] is neither a
    parameter nor a local of the function, so it is looked up as a global
    name.  The file system returned is the one left behind once the file
    object has given up its buffer: the path that raises never reaches
    [outfile.close()] (line 40), and the interpreter writes the buffer
    out when it reclaims the object. *)
Definition create_filterbank_file (fs : filesystem) (outfn : string)
    (hdr : gmap string value) (spectra : option (list (list (list byte))))
    (verbose : bool) : filesystem * result unit :=
  let fs0 := <[outfn := []]> fs in
  match sigproc.addto_hdr "HEADER_START" VNone with
  | Raise e => (fs0, Raise e)
  | Ok bs =>
      let fs1 := fwrite fs0 outfn bs in
      match load_global "self" with
      | Raise e => (fs1, Raise e)
      | Ok self_obj => create_body fs1 outfn self_obj spectra
      end
  end.

(** ** [print_header] and [main] *)

(** The order of Python's byte strings. *)
Definition str_le (a b : string) : Prop := String.leb a b = true.

#[global] Instance str_le_dec : RelDecision str_le :=
  fun a b => decide (String.leb a b = true).

Section Printing.

(** [str(x)] for a Python float [x]: the decimal text Python prints for a
    double.  Nothing below depends on what that text is. *)
Variable str_float : float → string.

(** [%s] applied to a header value. *)
Definition py_str (v : value) : string :=
  match v with
  | VNone => "None"
  | VInt z => pretty z
  | VFloat x => str_float x
  | VStr s => s
  end.

(** [sorted(l)] on strings: Python compares them byte by byte. *)
Definition py_sorted (l : list string) : list string := merge_sort str_le l.

(** The body of the loop of [print_header] (lines 133-136) over the
    parameters still to come: the lines printed and how the loop ended. *)
Fixpoint print_lines (hdr : gmap string value) (params : list string)
    : list string * result unit :=
  match params with
  | [] => ([], Ok tt)
  | param :: rest =>
      if is_sentinel param then print_lines hdr rest
      else
        match hdr !! param with
        | None => ([], Raise (KeyError param))
        | Some v =>
            let line := String.append param (String.append ": " (py_str v)) in
            let '(lines, r) := print_lines hdr rest in
            (line :: lines, r)
        end
  end.

(** [print_header] (lines 130-136): the lines written to standard
    output. *)
Definition print_header (self : FilterbankFile) : list string * result unit :=
  print_lines (header self) (py_sorted (map_to_list (header self)).*1).

(** How a run of [main] ends: [sys.argv[1]] is out of range, or the file
    was opened, with the warnings given, the lines printed and the
    outcome. *)
Inductive main_outcome : Type :=
| ArgvIndexError
| MainRan (warned : list string) (printed : list string) (r : result unit).

(** [main] (lines 139-141) on the argument vector [argv]. *)
Definition main (fs : filesystem) (argv : list string) : main_outcome :=
  match argv !! 1%nat with
  | None => ArgvIndexError
  | Some filfn =>
      match FilterbankFile_init fs filfn true with
      | (warned, Raise e) => MainRan warned [] (Raise e)
      | (warned, Ok fil) =>
          let '(lines, r) := print_header fil in MainRan warned lines r
      end
  end.

End Printing.

(** * Vocabulary of the properties *)

(** ** Invariants of reading *)

Definition in_bounds (f : pyfile) : Prop :=
  (position f ≤ length (contents f))%nat.

(** The values [read_hdr_val] returns have the type the table gives
    their name. *)
Definition has_type (t : sigproc.ftype) (v : value) : Prop :=
  match t, v with
  | sigproc.TFlag, VNone => True
  | sigproc.TStr, VStr _ => True
  | sigproc.TInt, VInt z => - 2 ^ 31 ≤ z < 2 ^ 31
  | sigproc.TDouble, VFloat _ => True
  | _, _ => False
  end.

Definition well_typed (paramname : string) (v : value) : Prop :=
  ∃ t, sigproc.header_params paramname = Some t ∧ has_type t v.

(** ** Record streams *)

(** [decodes f rs f']: read from [f], the stream yields the records
    [rs], none of them named [HEADER_END], and then a record named
    [HEADER_END]; [f'] is the file just after that record. *)
Inductive decodes : pyfile → list (string * value) → pyfile → Prop :=
| decodes_end f v f' :
    sigproc.read_hdr_val f = Ok (("HEADER_END", v), f') →
    decodes f [] f'
| decodes_field f paramname v f1 rs f' :
    sigproc.read_hdr_val f = Ok ((paramname, v), f1) →
    paramname ≠ "HEADER_END" →
    decodes f1 rs f' →
    decodes f ((paramname, v) :: rs) f'.

(** What the loop does with one record: line 89-90. *)
Definition store (hdr : gmap string value) (r : string * value)
    : gmap string value :=
  if is_sentinel r.1 then hdr else <[r.1 := r.2]> hdr.

(** The mapping a list of records leaves behind. *)
Definition header_of (rs : list (string * value)) : gmap string value :=
  foldl store ∅ rs.

(** The value of the last record named [n], starting from [acc]. *)
Definition last_value (n : string) (acc : option value)
    (rs : list (string * value)) : option value :=
  foldl (fun a r => if String.eqb r.1 n then Some r.2 else a) acc rs.

(** ** Slices in the spec's words *)

(** The range [[start, stop)] cut down to the valid range [[0, n)], as
    the spec words the treatment of out-of-range bounds. *)
Definition truncated_range {A} (l : list A) (start stop : Z) : list A :=
  let n := Z.of_nat (length l) in
  take (Z.to_nat (Z.min stop n - Z.max start 0))
    (drop (Z.to_nat (Z.max start 0)) l).

(** A negative bound counts from the end of the [n] items. *)
Definition from_end (n i : Z) : Z :=
  if i <? 0 then Z.max (i + n) 0 else i.

(** ** Nearest integers *)

(** [n] is an integer nearest to [m * 2^e]. *)
Definition is_nearest (m e n : Z) : Prop :=
  if 0 <=? e then n = m * 2 ^ e
  else 2 * Z.abs (n * 2 ^ (- e) - m) ≤ 2 ^ (- e).

(** [n] is an integer nearest to the finite double [x]. *)
Definition nearest_int (x : float) (n : Z) : Prop :=
  match Prim2SF x with
  | S754_zero _ => n = 0
  | S754_finite s m e => ∃ k, n = cond_Zopp s k ∧ is_nearest (Z.pos m) e k
  | S754_infinity _ | S754_nan => False
  end.

(** ** Binary64 rounding on exact values

    The definitions behind the proof that [fch1 + foff * i] is monotone:
    an exact value is an integer count of [2^E0], [rnd] rounds it to
    nearest with ties to even, and the key of a double is its value in
    that unit. *)

(** Round-to-nearest-even division of [M] by [g]. *)
Definition rne (M g : Z) : Z :=
  let q := M / g in
  match 2 * (M mod g) ?= g with
  | Lt => q
  | Gt => q + 1
  | Eq => if Z.even q then q else q + 1
  end.

(** The scale: every value below is an integer count of [2^E0]. *)
Definition E0 : Z := -2200.

Definition cexp (v : Z) : Z := fexp prec emax (Zdigits2 v + E0).

(** Rounding of the value [v * 2^E0] to binary64, overflow apart. *)
Definition rnd (v : Z) : Z :=
  let k := cexp v - E0 in rne v (2 ^ k) * 2 ^ k.

(** What [k] steps of [shr_1] have made of the exact mantissa [M]. *)
Definition shr_inv (M k : Z) (mrs : shr_record) : Prop :=
  shr_m mrs = M / 2 ^ k ∧
  shr_r mrs = (2 ^ k <=? 2 * (M mod 2 ^ k)) ∧
  shr_s mrs = negb ((2 * (M mod 2 ^ k)) mod 2 ^ k =? 0).

Definition Omega : Z := 2 ^ (emax - E0).

(** [out] is the float of sign [sx] and magnitude [V * 2^E0], an
    infinity from [Omega] on. *)
Definition represents (sx : bool) (V : Z) (out : spec_float) : Prop :=
  (V = 0 ∧ out = S754_zero sx) ∨
  (0 < V < Omega ∧
   ∃ m e, out = S754_finite sx m e ∧ E0 ≤ e ∧ Z.pos m * 2 ^ (e - E0) = V) ∨
  (Omega ≤ V ∧ out = S754_infinity sx).

(** The key of a float: its value in units of [2^E0], with [Omega] for
    an infinity.  Keys order the floats that are no NaN. *)
Definition key (f : spec_float) : Z :=
  match f with
  | S754_zero _ | S754_nan => 0
  | S754_finite s m e => cond_Zopp s (Z.pos m * 2 ^ (e - E0))
  | S754_infinity s => cond_Zopp s Omega
  end.

(** Rounding of a signed value, with overflow. *)
Definition round_key (w : Z) : Z :=
  if 0 <=? w then Z.min (rnd w) Omega else - Z.min (rnd (- w)) Omega.

Definition fkey (x : float) : Z := key (Prim2SF x).

(** The key of [x + p] as a function of the key of [p]. *)
Definition add_to_key (kx kp : Z) : Z :=
  if Z.abs kp <? Omega then round_key (kx + kp) else kp.

(** ** Example files *)

(** The bytes of one record, as [sigproc.addto_hdr] writes it. *)
Definition record_bytes (paramname : string) (v : value) : list byte :=
  match sigproc.addto_hdr paramname v with
  | Ok bs => bs
  | Raise _ => []
  end.

(** A header stream: the records in order, then the end sentinel. *)
Definition encode_records (rs : list (string * value)) : list byte :=
  (concat (map (fun r => record_bytes r.1 r.2) rs)
     ++ record_bytes "HEADER_END" VNone)%list.

(** The header of the spec's scenario: [fch1=1400.0, foff=-1.0,
    nchans=4, nbits=8, tsamp=0.001]. *)
Definition scenario_records : list (string * value) :=
  [ ("HEADER_START", VNone); ("fch1", VFloat 1400); ("foff", VFloat (-1));
    ("nchans", VInt 4); ("nbits", VInt 8);
    ("tsamp", VFloat 0x1.0624dd2f1a9fcp-10) ].

(** Ten data bytes behind the scenario's header: two spectra of four
    one-byte samples and two bytes more. *)
Definition scenario_file : list byte :=
  (encode_records scenario_records ++ map byte_of_Z [1; 2; 3; 4; 5; 6; 7; 8; 9; 10])%list.

Definition scenario_fs : filesystem := {[ "scenario.fil" := scenario_file ]}.

(** The instance [__init__] builds for the scenario file. *)
Definition scenario_handle : FilterbankFile :=
  {| filename := "scenario.fil"; read_only := true;
     header := header_of scenario_records; header_size := 106;
     frequencies := [1400; 1399; 1398; 1397]%float;
     is_hifreq_first := true;
     data_size := 10; bytes_per_spectrum := 4; nspec := 2;
     spectra :=
       {| dtype := "uint8"; shape := (2, 4);
          rows :=
            [ [[byte_of_Z 1]; [byte_of_Z 2]; [byte_of_Z 3]; [byte_of_Z 4]];
              [[byte_of_Z 5]; [byte_of_Z 6]; [byte_of_Z 7]; [byte_of_Z 8]] ] |} |}.

(** A stream that names [nchans] twice. *)
Definition repeated_records : list (string * value) :=
  [ ("HEADER_START", VNone); ("nchans", VInt 4); ("nbits", VInt 8);
    ("nchans", VInt 16) ].

Definition repeated_fs : filesystem :=
  {[ "repeated.fil" := encode_records repeated_records ]}.

(** A stream with no start sentinel: its first record is [nchans]. *)
Definition headless_records : list (string * value) := [ ("nchans", VInt 4) ].

Definition headless_fs : filesystem :=
  {[ "headless.fil" := encode_records headless_records ]}.

(** Twelve-bit samples in two channels. *)
Definition twelve_bit_records : list (string * value) :=
  [ ("HEADER_START", VNone); ("fch1", VFloat 1400); ("foff", VFloat (-1));
    ("nchans", VInt 2); ("nbits", VInt 12) ].

Definition twelve_bit_fs : filesystem :=
  {[ "twelve.fil" :=
       (encode_records twelve_bit_records ++ map byte_of_Z [1; 2; 3; 4; 5; 6])%list ]}.

(** The same header before seven data bytes: two spectra of three bytes
    each and one byte more. *)
Definition twelve_bit_partial_file : list byte :=
  (encode_records twelve_bit_records
     ++ map byte_of_Z [1; 2; 3; 4; 5; 6; 7])%list.

Definition twelve_bit_partial_fs : filesystem :=
  {[ "partial.fil" := twelve_bit_partial_file ]}.

(** A header that holds [nbits] and nothing else. *)
Definition nbits_only_records : list (string * value) :=
  [ ("HEADER_START", VNone); ("nbits", VInt 4) ].

Definition nbits_only_fs : filesystem :=
  {[ "nbits.fil" := encode_records nbits_only_records ]}.

(** Four-bit samples in one channel: less than a byte per spectrum. *)
Definition four_bit_records : list (string * value) :=
  [ ("HEADER_START", VNone); ("fch1", VFloat 1400); ("foff", VFloat (-1));
    ("nchans", VInt 1); ("nbits", VInt 4) ].

Definition four_bit_fs : filesystem :=
  {[ "four.fil" :=
       (encode_records four_bit_records ++ map byte_of_Z [1; 2; 3])%list ]}.

(** A file whose frequency step is minus infinity. *)
Definition infinite_step_records : list (string * value) :=
  [ ("HEADER_START", VNone); ("fch1", VFloat 1400);
    ("foff", VFloat neg_infinity); ("nchans", VInt 2); ("nbits", VInt 8) ].

Definition infinite_step_fs : filesystem :=
  {[ "infinite.fil" :=
       (encode_records infinite_step_records ++ map byte_of_Z [1; 2])%list ]}.

(** One step of a proof that a concrete stream decodes. *)
Ltac decode_records :=
  repeat first
    [ eapply decodes_end; vm_compute; reflexivity
    | eapply decodes_field; [vm_compute; reflexivity | discriminate | ] ].

(** ** Failing streams and missing fields *)

(** [decode_fails f rs e]: read from [f], the stream yields the records
    [rs], none of them named [HEADER_END], and the next read raises [e]. *)
Inductive decode_fails : pyfile → list (string * value) → exn → Prop :=
| decode_fails_here f e :
    sigproc.read_hdr_val f = Raise e →
    decode_fails f [] e
| decode_fails_later f paramname v f1 rs e :
    sigproc.read_hdr_val f = Ok ((paramname, v), f1) →
    paramname ≠ "HEADER_END" →
    decode_fails f1 rs e →
    decode_fails f ((paramname, v) :: rs) e.

(** The header fields [__init__] looks up, in the order of lines 103-106. *)
Definition required_fields : list string := ["fch1"; "foff"; "nchans"; "nbits"].

(** The first of them that a header lacks. *)
Definition first_missing (hdr : gmap string value) : option string :=
  List.find (fun k => bool_decide (hdr !! k = None)) required_fields.

(** ** More example files *)

(** A header that stops before its end sentinel. *)
Definition unterminated_fs : filesystem :=
  {[ "cut.fil" :=
       (record_bytes "HEADER_START" VNone ++ record_bytes "nchans" (VInt 4))%list ]}.

(** A header with no [foff]. *)
Definition no_foff_records : list (string * value) :=
  [ ("HEADER_START", VNone); ("fch1", VFloat 1400);
    ("nchans", VInt 4); ("nbits", VInt 8) ].

Definition no_foff_fs : filesystem :=
  {[ "nofoff.fil" := encode_records no_foff_records ]}.

(** Sixteen-bit samples in three channels, two spectra, no [tsamp]. *)
Definition sixteen_bit_records : list (string * value) :=
  [ ("HEADER_START", VNone); ("source_name", VStr "J0000");
    ("fch1", VFloat 1500); ("foff", VFloat 2);
    ("nchans", VInt 3); ("nbits", VInt 16) ].

Definition sixteen_bit_file : list byte :=
  (encode_records sixteen_bit_records
     ++ map byte_of_Z [1; 2; 3; 4; 5; 6; 7; 8; 9; 10; 11; 12])%list.

Definition sixteen_bit_fs : filesystem := {[ "sixteen.fil" := sixteen_bit_file ]}.

(** The instance [__init__] builds for the sixteen-bit file. *)
Definition sixteen_bit_handle : FilterbankFile :=
  {| filename := "sixteen.fil"; read_only := true;
     header := header_of sixteen_bit_records; header_size := 113;
     frequencies := [1500; 1502; 1504]%float;
     is_hifreq_first := false;
     data_size := 12; bytes_per_spectrum := 6; nspec := 2;
     spectra :=
       {| dtype := "uint16"; shape := (2, 3);
          rows :=
            [ [[byte_of_Z 1; byte_of_Z 2]; [byte_of_Z 3; byte_of_Z 4];
               [byte_of_Z 5; byte_of_Z 6]];
              [[byte_of_Z 7; byte_of_Z 8]; [byte_of_Z 9; byte_of_Z 10];
               [byte_of_Z 11; byte_of_Z 12]] ] |} |}.

(** * Properties *)

(** ** Reading moves forward *)

Lemma read_spec f n bs f' :
  read f n = (bs, f') →
  contents f' = contents f ∧
  position f' = (position f + length bs)%nat ∧
  length bs = (n `min` remaining f)%nat.
Proof.
  unfold read, remaining. intros [= <- <-]. cbn.
  rewrite length_take, length_drop. done.
Qed.

Lemma read_remaining f n bs f' :
  read f n = (bs, f') →
  remaining f' = (remaining f - length bs)%nat ∧
  (length bs ≤ remaining f)%nat ∧
  (in_bounds f → in_bounds f').
Proof.
  intros (Hc & Hp & Hl)%read_spec. unfold remaining, in_bounds in *.
  rewrite Hc, Hp. lia.
Qed.

Lemma read_string_remaining f s f' :
  sigproc.read_string f = Ok (s, f') →
  contents f' = contents f ∧ (remaining f' + 4 ≤ remaining f)%nat ∧
  (in_bounds f → in_bounds f').
Proof.
  unfold sigproc.read_string.
  destruct (read f 4) as [lenb f1] eqn:E1.
  destruct (read f1 _) as [sb f2] eqn:E2.
  destruct (Nat.ltb_spec (length lenb) 4); [done|].
  destruct (Nat.ltb_spec (length sb) (Z.to_nat (le_value lenb))); [done|].
  intros [= _ <-].
  pose proof (read_spec _ _ _ _ E1) as (Hc1 & _ & Hl1).
  pose proof (read_remaining _ _ _ _ E1) as (Hr1 & Hb1 & Hi1).
  pose proof (read_spec _ _ _ _ E2) as (Hc2 & _ & _).
  pose proof (read_remaining _ _ _ _ E2) as (Hr2 & Hb2 & Hi2).
  split; [congruence|]. split; [lia | tauto].
Qed.

Lemma le_value_bound bs : 0 ≤ le_value bs < 256 ^ Z.of_nat (length bs).
Proof.
  induction bs as [|b bs IH]; cbn [le_value length]; [done|].
  rewrite Nat2Z.inj_succ, Z.pow_succ_r by lia.
  pose proof (Byte.to_N_bounded b). unfold Z_of_byte. lia.
Qed.

Lemma read_int_remaining f z f' :
  sigproc.read_int f = Ok (z, f') →
  contents f' = contents f ∧ (remaining f' ≤ remaining f)%nat ∧
  (in_bounds f → in_bounds f') ∧ - 2 ^ 31 ≤ z < 2 ^ 31.
Proof.
  unfold sigproc.read_int. destruct (read f 4) as [bs f1] eqn:E1.
  destruct (Nat.ltb_spec (length bs) 4); [done|]. intros [= <- <-].
  pose proof (read_spec _ _ _ _ E1) as (Hc1 & _ & Hl).
  pose proof (read_remaining _ _ _ _ E1) as (Hr1 & Hb1 & Hi1).
  split; [done|]. split; [lia|]. split; [done|].
  pose proof (le_value_bound bs) as Hv.
  replace (length bs) with 4%nat in Hv by lia.
  change (256 ^ Z.of_nat 4) with (2 ^ 32) in Hv.
  unfold to_signed. change (2 ^ (32 - 1)) with (2 ^ 31).
  destruct (Z.ltb_spec (le_value bs) (2 ^ 31)); lia.
Qed.

Lemma read_double_remaining f x f' :
  sigproc.read_double f = Ok (x, f') →
  contents f' = contents f ∧ (remaining f' ≤ remaining f)%nat ∧
  (in_bounds f → in_bounds f').
Proof.
  unfold sigproc.read_double. destruct (read f 8) as [bs f1] eqn:E1.
  destruct (Nat.ltb_spec (length bs) 8); [done|]. intros [= _ <-].
  pose proof (read_spec _ _ _ _ E1) as (Hc1 & _ & _).
  pose proof (read_remaining _ _ _ _ E1) as (Hr1 & Hb1 & Hi1).
  split; [done|]. split; [lia | done].
Qed.

(** A successful record read consumes at least the four bytes of the
    name's length prefix, leaves the file's bytes alone, stays inside
    the file and returns a value of the type of its name. *)
Lemma read_hdr_val_spec f paramname v f' :
  sigproc.read_hdr_val f = Ok ((paramname, v), f') →
  contents f' = contents f ∧ (remaining f' + 4 ≤ remaining f)%nat ∧
  (in_bounds f → in_bounds f') ∧ well_typed paramname v.
Proof.
  unfold sigproc.read_hdr_val, well_typed.
  destruct (sigproc.read_string f) as [[s f1]|e] eqn:E1;
    cbn [mbind result_bind]; [|done].
  apply read_string_remaining in E1 as (Hc1 & Hr1 & Hi1).
  destruct (sigproc.header_params s) as [[]|] eqn:Et; [| | | |done].
  - intros [= <- <- <-]. do 3 (split; [done|]).
    exists sigproc.TFlag. done.
  - destruct (sigproc.read_string f1) as [[s2 f2]|e] eqn:E2;
      cbn [mbind result_bind]; [|done].
    intros [= <- <- <-].
    apply read_string_remaining in E2 as (Hc2 & Hr2 & Hi2).
    split; [congruence|]. split; [lia|]. split; [tauto|].
    exists sigproc.TStr. done.
  - destruct (sigproc.read_int f1) as [[z f2]|e] eqn:E2;
      cbn [mbind result_bind]; [|done].
    intros [= <- <- <-].
    apply read_int_remaining in E2 as (Hc2 & Hr2 & Hi2 & Hz).
    split; [congruence|]. split; [lia|]. split; [tauto|].
    exists sigproc.TInt. done.
  - destruct (sigproc.read_double f1) as [[z f2]|e] eqn:E2;
      cbn [mbind result_bind]; [|done].
    intros [= <- <- <-].
    apply read_double_remaining in E2 as (Hc2 & Hr2 & Hi2).
    split; [congruence|]. split; [lia|]. split; [tauto|].
    exists sigproc.TDouble. done.
Qed.

(** ** The header loop *)

Lemma read_header_loop_S fuel paramname hdr f :
  read_header_loop (S fuel) paramname hdr f =
  if String.eqb paramname "HEADER_END" then Some (Ok (hdr, tell f))
  else
    match sigproc.read_hdr_val f with
    | Raise e => Some (Raise e)
    | Ok ((paramname', val), f') =>
        read_header_loop fuel paramname'
          (if is_sentinel paramname' then hdr else <[paramname' := val]> hdr) f'
    end.
Proof. reflexivity. Qed.

Lemma read_header_loop_O paramname hdr f :
  read_header_loop O paramname hdr f =
  if String.eqb paramname "HEADER_END" then Some (Ok (hdr, tell f)) else None.
Proof. reflexivity. Qed.

(** The loop always finishes within the fuel [read_header] gives it. *)
Lemma read_header_loop_total fuel paramname hdr f :
  (remaining f < fuel)%nat →
  is_Some (read_header_loop fuel paramname hdr f).
Proof.
  revert paramname hdr f.
  induction fuel as [|fuel IH]; intros paramname hdr f Hf; [lia|].
  rewrite read_header_loop_S.
  destruct (String.eqb paramname "HEADER_END"); [eauto|].
  destruct (sigproc.read_hdr_val f) as [[[p v] f']|e] eqn:E; [|eauto].
  apply read_hdr_val_spec in E as (_ & Hr & _ & _). apply IH. lia.
Qed.

(** More fuel does not change a finished loop. *)
Lemma read_header_loop_mono fuel fuel' paramname hdr f r :
  read_header_loop fuel paramname hdr f = Some r →
  (fuel ≤ fuel')%nat →
  read_header_loop fuel' paramname hdr f = Some r.
Proof.
  revert fuel' paramname hdr f.
  induction fuel as [|fuel IH]; intros fuel' paramname hdr f.
  - rewrite read_header_loop_O.
    destruct fuel'; [by rewrite read_header_loop_O|].
    rewrite read_header_loop_S.
    destruct (String.eqb paramname "HEADER_END"); done.
  - destruct fuel' as [|fuel']; [lia|]. rewrite !read_header_loop_S.
    destruct (String.eqb paramname "HEADER_END"); [done|].
    destruct (sigproc.read_hdr_val f) as [[[p v] f']|e]; [|done].
    intros H Hle. apply IH; [done | lia].
Qed.

(** [read_header] is the loop, run on the file from position zero with
    any fuel that lets it finish. *)
Lemma read_header_unfold fs filename bytes fuel r :
  fs !! filename = Some bytes →
  read_header_loop fuel "" ∅ (mk_pyfile bytes 0) = Some r →
  read_header fs filename = r.
Proof.
  intros Hfs Hloop. unfold read_header, open_rb. rewrite Hfs.
  cbn [mbind result_bind]. unfold seek. cbn [contents position].
  set (f := {| contents := bytes; position := 0 |}) in *.
  destruct (read_header_loop_total (S (remaining f)) "" ∅ f) as [r' Hr']; [lia|].
  rewrite Hr'.
  destruct (Nat.le_ge_cases fuel (S (remaining f))) as [Hle|Hle].
  - pose proof (read_header_loop_mono _ _ _ _ _ _ Hloop Hle). congruence.
  - pose proof (read_header_loop_mono _ _ _ _ _ _ Hr' Hle). congruence.
Qed.

(** ** The records of a header stream *)

Lemma is_sentinel_end : is_sentinel "HEADER_END" = true.
Proof. reflexivity. Qed.

Lemma read_header_loop_decodes f rs f' :
  decodes f rs f' →
  ∀ paramname hdr, paramname ≠ "HEADER_END" →
  read_header_loop (S (length rs)) paramname hdr f =
    Some (Ok (foldl store hdr rs, position f')).
Proof.
  induction 1 as [f v f' Hread | f p v f1 rs f' Hread Hp _ IH];
    intros paramname hdr Hne; rewrite read_header_loop_S;
    apply String.eqb_neq in Hne as ->; rewrite Hread.
  - rewrite is_sentinel_end. reflexivity.
  - cbn [length foldl]. rewrite IH by done. reflexivity.
Qed.

Lemma store_fold_lookup rs : ∀ (hdr : gmap string value) n,
  foldl store hdr rs !! n =
  if is_sentinel n then hdr !! n else last_value n (hdr !! n) rs.
Proof.
  unfold last_value.
  induction rs as [|[p v] rs IH]; intros hdr n; cbn [foldl].
  - by destruct (is_sentinel n).
  - rewrite IH. unfold store. cbn [fst snd].
    destruct (is_sentinel n) eqn:Hn.
    + destruct (is_sentinel p) eqn:Hp; [done|].
      rewrite lookup_insert_ne; [done|]. intros ->. congruence.
    + destruct (String.eqb_spec p n) as [->|Hpn].
      * rewrite Hn. by rewrite lookup_insert_eq.
      * destruct (is_sentinel p); [done|]. by rewrite lookup_insert_ne.
Qed.

Lemma header_of_lookup rs n :
  header_of rs !! n = if is_sentinel n then None else last_value n None rs.
Proof. unfold header_of. rewrite store_fold_lookup, lookup_empty. done. Qed.

Lemma last_value_app n acc r1 r2 :
  last_value n acc (r1 ++ r2) = last_value n (last_value n acc r1) r2.
Proof. unfold last_value. apply foldl_app. Qed.

Lemma last_value_absent n acc rs :
  n ∉ rs.*1 → last_value n acc rs = acc.
Proof.
  unfold last_value. revert acc.
  induction rs as [|[p v] rs IH]; intros acc Hn; cbn [foldl]; [done|].
  cbn in Hn. apply not_elem_of_cons in Hn as [Hne Hn].
  rewrite IH by done. cbn [fst]. destruct (String.eqb_spec p n); congruence.
Qed.

Lemma last_value_present n acc rs v :
  (n, v) ∈ rs → is_Some (last_value n acc rs).
Proof.
  intros (r1 & r2 & ->)%list_elem_of_split.
  rewrite last_value_app. unfold last_value at 1. cbn [foldl fst snd].
  rewrite String.eqb_refl. generalize (last_value n acc r1). intros _.
  assert (∀ a, is_Some a → is_Some (last_value n a r2)) as H; [|by apply H].
  unfold last_value. induction r2 as [|[p w] r2 IH]; intros a Ha; [done|].
  cbn [foldl fst snd]. apply IH. destruct (String.eqb p n); [done|done].
Qed.

(** Everything stored came out of [read_hdr_val], so it has the type of
    its name, and no sentinel is stored. *)
Lemma read_header_loop_inv (P : string → value → Prop) fuel :
  ∀ paramname hdr f h sz,
  (∀ f0 n v f1, sigproc.read_hdr_val f0 = Ok ((n, v), f1) →
                is_sentinel n = false → P n v) →
  read_header_loop fuel paramname hdr f = Some (Ok (h, sz)) →
  in_bounds f →
  (∀ n v, hdr !! n = Some v → P n v) →
  (∀ n v, h !! n = Some v → P n v) ∧ (sz ≤ length (contents f))%nat.
Proof.
  induction fuel as [|fuel IH]; intros paramname hdr f h sz HP.
  - rewrite read_header_loop_O.
    destruct (String.eqb paramname "HEADER_END"); [|done].
    intros [= <- <-]. done.
  - rewrite read_header_loop_S.
    destruct (String.eqb paramname "HEADER_END").
    { intros [= <- <-]. done. }
    destruct (sigproc.read_hdr_val f) as [[[p v] f']|e] eqn:E; [|done].
    intros Hloop Hb Hhdr.
    pose proof (read_hdr_val_spec _ _ _ _ E) as (Hc & _ & Hb' & _).
    rewrite <- Hc. eapply IH; [done | exact Hloop | tauto |].
    intros n w. destruct (is_sentinel p) eqn:Hp; [apply Hhdr|].
    rewrite lookup_insert. case_decide as Hd; [|apply Hhdr].
    intros [= <-]. subst n. eapply HP; done.
Qed.

Lemma read_header_typed fs filename hdr hsize :
  read_header fs filename = Ok (hdr, hsize) →
  (∀ n v, hdr !! n = Some v → well_typed n v ∧ is_sentinel n = false) ∧
  ∃ file, fs !! filename = Some file ∧ (hsize ≤ length file)%nat.
Proof.
  unfold read_header, open_rb.
  destruct (fs !! filename) as [file|] eqn:Hfs; [|done].
  cbn [mbind result_bind]. unfold seek. cbn [contents position].
  set (f := {| contents := file; position := 0 |}).
  destruct (read_header_loop _ _ _ _) as [r|] eqn:Hloop; [|done].
  intros ->.
  eapply (read_header_loop_inv
            (fun n v => well_typed n v ∧ is_sentinel n = false)) in Hloop
    as [H1 H2].
  - split; [exact H1|]. exists file. done.
  - intros f0 n v f1 Hr Hn. split; [|done].
    by apply read_hdr_val_spec in Hr as (_ & _ & _ & ?).
  - unfold in_bounds, f. cbn. lia.
  - intros n v. by rewrite lookup_empty.
Qed.

(** ** The claims on [read_header] *)

Lemma read_header_of_records fs filename bytes rs f' :
  fs !! filename = Some bytes →
  decodes (mk_pyfile bytes 0) rs f' →
  read_header fs filename = Ok (header_of rs, position f').
Proof.
  intros Hfs Hdec. eapply read_header_unfold; [done|].
  by apply read_header_loop_decodes.
Qed.

Lemma header_of_stored rs n v :
  (n, v) ∈ rs → is_sentinel n = false → is_Some (header_of rs !! n).
Proof.
  intros Hin Hn. rewrite header_of_lookup, Hn. by eapply last_value_present.
Qed.

(** C2: on a stream that holds the records [rs] and then a record named
    [HEADER_END], [read_header] reads record after record until that
    end sentinel is consumed, returns the mapping in which every pair of
    [rs] was stored except those named [HEADER_START] or [HEADER_END]
    (a sentinel name is never a key, every other name of [rs] is one, and
    a name read more than once keeps its last value), and returns as
    [header_size] the position just after the end sentinel. *)
Theorem read_header_decodes fs filename bytes rs f' :
  fs !! filename = Some bytes →
  decodes (mk_pyfile bytes 0) rs f' →
  read_header fs filename = Ok (header_of rs, position f') ∧
  (∀ n, header_of rs !! n =
        if is_sentinel n then None else last_value n None rs) ∧
  (∀ n v, (n, v) ∈ rs → is_sentinel n = false →
          is_Some (header_of rs !! n)).
Proof.
  intros Hfs Hdec. split; [|split].
  - by eapply read_header_of_records.
  - apply header_of_lookup.
  - apply header_of_stored.
Qed.

Lemma read_header_decodes_witness :
  read_header scenario_fs "scenario.fil"
    = Ok (header_of scenario_records, 106%nat) ∧
  (∀ n, header_of scenario_records !! n =
        if is_sentinel n then None else last_value n None scenario_records) ∧
  (∀ n v, (n, v) ∈ scenario_records → is_sentinel n = false →
          is_Some (header_of scenario_records !! n)).
Proof.
  apply (read_header_decodes scenario_fs "scenario.fil" scenario_file
           scenario_records (mk_pyfile scenario_file 106)).
  - reflexivity.
  - unfold scenario_records. decode_records.
Defined.

(** A key of a map occurs once among its entries. *)
Lemma map_entries_once (h : gmap string value) n v :
  h !! n = Some v →
  length (filter (fun kv : string * value => kv.1 = n) (map_to_list h)) = 1%nat.
Proof.
  intros Hn.
  rewrite <- (insert_delete_id h n v Hn).
  rewrite (Permutation_length
             (filter_Permutation _ _ _
                (map_to_list_insert (delete n h) n v (lookup_delete_eq h n)))).
  rewrite filter_cons_True by done. cbn [length]. f_equal.
  assert (∀ l : list (string * value),
            Forall (fun kv => kv.1 ≠ n) l →
            filter (fun kv : string * value => kv.1 = n) l = []) as Hnone.
  { induction 1 as [|kv l Hkv _ IH]; [done|].
    by rewrite filter_cons_False. }
  rewrite Hnone; [done|]. apply Forall_forall.
  intros [k w] Hk%elem_of_map_to_list. cbn. intros ->.
  by rewrite lookup_delete_eq in Hk.
Qed.

(** C10: when the stream decodes and [(n, v)] is the last record of the
    non-sentinel name [n] before the end sentinel, whatever records of
    the same name came before it, [read_header] does not fail, and the
    mapping it returns holds [n] exactly once, bound to [v]. *)
Theorem read_header_last_wins fs filename bytes rs f' r1 r2 n v :
  fs !! filename = Some bytes →
  decodes (mk_pyfile bytes 0) rs f' →
  rs = (r1 ++ (n, v) :: r2)%list →
  is_sentinel n = false →
  n ∉ r2.*1 →
  ∃ h sz, read_header fs filename = Ok (h, sz) ∧
          h !! n = Some v ∧
          length (filter (fun kv : string * value => kv.1 = n)
                    (map_to_list h)) = 1%nat.
Proof.
  intros Hfs Hdec -> Hn Hr2.
  exists (header_of (r1 ++ (n, v) :: r2)), (position f').
  assert (header_of (r1 ++ (n, v) :: r2) !! n = Some v) as Hlook.
  { rewrite header_of_lookup, Hn, last_value_app.
    change ((n, v) :: r2) with ([(n, v)] ++ r2)%list.
    rewrite last_value_app, (last_value_absent _ _ r2) by done.
    unfold last_value. cbn [foldl fst snd]. by rewrite String.eqb_refl. }
  split; [|split].
  - by eapply read_header_of_records.
  - done.
  - by eapply map_entries_once.
Qed.

Lemma read_header_last_wins_witness :
  ∃ h sz, read_header repeated_fs "repeated.fil" = Ok (h, sz) ∧
          h !! "nchans" = Some (VInt 16) ∧
          length (filter (fun kv : string * value => kv.1 = "nchans")
                    (map_to_list h)) = 1%nat.
Proof.
  apply (read_header_last_wins repeated_fs "repeated.fil"
           (encode_records repeated_records) repeated_records
           (mk_pyfile (encode_records repeated_records) 71)
           [("HEADER_START", VNone); ("nchans", VInt 4); ("nbits", VInt 8)]
           [] "nchans" (VInt 16)).
  - reflexivity.
  - unfold repeated_records. decode_records.
  - reflexivity.
  - reflexivity.
  - cbn. apply not_elem_of_nil.
Defined.

Lemma read_hdr_val_unknown f name f1 :
  sigproc.read_string f = Ok (name, f1) →
  sigproc.header_params name = None →
  sigproc.read_hdr_val f = Raise (MalformedHeader name).
Proof.
  intros Hs Hp. unfold sigproc.read_hdr_val. rewrite Hs.
  cbn [mbind result_bind]. by rewrite Hp.
Qed.

(** C3, as the code has it: [read_header] has no check that the first
    record is [HEADER_START].  It fails with [MalformedHeader] when the
    name of the first record is outside the vocabulary; a first record
    that is a field of the vocabulary is stored like any other and
    decoding goes on to the end sentinel. *)
Theorem read_header_first_record fs filename bytes :
  fs !! filename = Some bytes →
  (∀ name f1,
     sigproc.read_string (mk_pyfile bytes 0) = Ok (name, f1) →
     sigproc.header_params name = None →
     read_header fs filename = Raise (MalformedHeader name)) ∧
  (∀ n v f1 rs f',
     sigproc.read_hdr_val (mk_pyfile bytes 0) = Ok ((n, v), f1) →
     n ≠ "HEADER_START" → n ≠ "HEADER_END" →
     decodes f1 rs f' →
     read_header fs filename = Ok (header_of ((n, v) :: rs), position f') ∧
     is_Some (header_of ((n, v) :: rs) !! n)).
Proof.
  intros Hfs. split.
  - intros name f1 Hs Hp.
    eapply (read_header_unfold _ _ _ 1); [done|].
    rewrite read_header_loop_S. cbn [String.eqb].
    by rewrite (read_hdr_val_unknown _ _ _ Hs Hp).
  - intros n v f1 rs f' Hread Hstart Hend Hdec.
    assert (decodes (mk_pyfile bytes 0) ((n, v) :: rs) f') as Hall
      by (by eapply decodes_field).
    split; [by eapply read_header_of_records|].
    apply (header_of_stored _ n v); [left|].
    unfold is_sentinel.
    apply String.eqb_neq in Hstart as ->. by apply String.eqb_neq in Hend as ->.
Qed.

Lemma read_header_first_record_witness :
  read_header headless_fs "headless.fil"
    = Ok (header_of [("nchans", VInt 4)], 28%nat) ∧
  is_Some (header_of [("nchans", VInt 4)] !! "nchans").
Proof.
  apply (proj2 (read_header_first_record headless_fs "headless.fil"
                  (encode_records headless_records) eq_refl)
           "nchans" (VInt 4)
           (mk_pyfile (encode_records headless_records) 14) []
           (mk_pyfile (encode_records headless_records) 28)).
  - vm_compute. reflexivity.
  - discriminate.
  - discriminate.
  - decode_records.
Defined.

(** C3 as stated fails: the first record of this stream is [nchans], not
    [HEADER_START], and [read_header] returns a header for it. *)
Lemma read_header_headless_accepted :
  (∃ f1, sigproc.read_hdr_val
            (mk_pyfile (encode_records headless_records) 0)
          = Ok (("nchans", VInt 4), f1)) ∧
  ∃ h, read_header headless_fs "headless.fil" = Ok (h, 28%nat) ∧
       h !! "nchans" = Some (VInt 4).
Proof.
  split; [eexists; vm_compute; reflexivity|].
  exists (header_of headless_records). split; [|vm_compute; reflexivity].
  eapply (read_header_unfold _ _ _ 2); [reflexivity|].
  vm_compute. reflexivity.
Qed.

(** ** Opening a file *)

Lemma bind_Ok {A B} (r : result A) (k : A → result B) b :
  r ≫= k = Ok b → ∃ a, r = Ok a ∧ k a = Ok b.
Proof. destruct r as [a|e]; cbn; [eauto | done]. Qed.

Lemma getattr_float_Ok hdr name x :
  getattr hdr name ≫= as_float = Ok x → hdr !! name = Some (VFloat x).
Proof.
  unfold getattr. destruct (hdr !! name) as [[]|]; cbn; congruence.
Qed.

Lemma getattr_int_Ok hdr name z :
  getattr hdr name ≫= as_int = Ok z → hdr !! name = Some (VInt z).
Proof.
  unfold getattr. destruct (hdr !! name) as [[]|]; cbn; congruence.
Qed.

Lemma getattr_float hdr name x :
  hdr !! name = Some (VFloat x) → getattr hdr name ≫= as_float = Ok x.
Proof. unfold getattr. by intros ->. Qed.

Lemma getattr_int hdr name z :
  hdr !! name = Some (VInt z) → getattr hdr name ≫= as_int = Ok z.
Proof. unfold getattr. by intros ->. Qed.

Lemma py_int_div_Ok x y q :
  py_int_div x y = Ok q → y ≠ 0 ∧ q = x / y.
Proof.
  unfold py_int_div. destruct (Z.eqb_spec y 0); [done|]. by intros [= <-].
Qed.

Lemma get_dtype_Ok nbits dt :
  get_dtype nbits = Ok dt →
  (nbits = 8 ∧ dt = "uint8") ∨ (nbits = 16 ∧ dt = "uint16") ∨
  (nbits = 32 ∧ dt = "float32").
Proof.
  unfold get_dtype. case_bool_decide as Hin; cbn [negb]; [|done].
  apply elem_of_cons in Hin as [->|Hin]; [intros [= <-]; auto|].
  apply elem_of_cons in Hin as [->|Hin]; [intros [= <-]; auto|].
  apply elem_of_cons in Hin as [->|Hin]; [intros [= <-]; auto|].
  by apply elem_of_nil in Hin.
Qed.

Lemma get_dtype_unsupported nbits :
  nbits ≠ 8 → nbits ≠ 16 → nbits ≠ 32 →
  get_dtype nbits = Raise (NotImplementedError nbits).
Proof.
  intros H8 H16 H32. unfold get_dtype.
  case_bool_decide as Hin; cbn [negb]; [|done].
  repeat (apply elem_of_cons in Hin as [->|Hin]; [done|]).
  by apply elem_of_nil in Hin.
Qed.

Lemma np_memmap_Ok file dt offset n0 n1 mm :
  np_memmap file dt offset (n0, n1) = Ok mm →
  ∃ w, dtype_itemsize dt = Some w ∧ 0 ≤ n0 ∧ 0 ≤ n1 ∧
       n0 * n1 * Z.of_nat w ≤ Z.of_nat (length (drop offset file)) ∧
       mm = {| dtype := dt; shape := (n0, n1);
               rows := map (chunks w (Z.to_nat n1))
                         (chunks (Z.to_nat n1 * w) (Z.to_nat n0)
                            (drop offset file)) |}.
Proof.
  unfold np_memmap. destruct (dtype_itemsize dt) as [w|]; [|done].
  destruct (Z.ltb_spec (Z.of_nat (length (drop offset file)))
              (n0 * n1 * Z.of_nat w)); [done|].
  destruct (Z.ltb_spec n0 0); [done|].
  destruct (Z.ltb_spec n1 0); [done|]. cbn [orb].
  intros [= <-]. exists w. done.
Qed.

(** What [__init__] computes once the header is read and holds the four
    fields [__init__] looks up. *)
Lemma FilterbankFile_init_fields fs filfn ro file hdr hsize fch1 foff nc nb :
  fs !! filfn = Some file →
  read_header fs filfn = Ok (hdr, hsize) →
  hdr !! "fch1" = Some (VFloat fch1) →
  hdr !! "foff" = Some (VFloat foff) →
  hdr !! "nchans" = Some (VInt nc) →
  hdr !! "nbits" = Some (VInt nb) →
  FilterbankFile_init fs filfn ro =
    let dsize := Z.of_nat (length file) - Z.of_nat hsize in
    let bps := nc * nb / 8 in
    if bps =? 0 then ([], Raise ZeroDivisionError)
    else
      (if dsize mod bps =? 0 then [] else [warning_text],
       dt ← get_dtype nb;
       mm ← np_memmap file dt hsize (dsize / bps, nc);
       Ok {| filename := filfn; read_only := ro;
             header := hdr; header_size := hsize;
             frequencies :=
               map (fun i => fch1 + foff * float_of_Z i)%float (np_arange nc);
             is_hifreq_first := (foff <? 0)%float;
             data_size := dsize; bytes_per_spectrum := bps;
             nspec := dsize / bps; spectra := mm |}).
Proof.
  intros Hfs Hrh H1 H2 H3 H4. unfold FilterbankFile_init.
  rewrite Hfs, Hrh. cbn [mbind result_bind].
  rewrite !(getattr_float _ _ _ H1), !(getattr_float _ _ _ H2),
    !(getattr_int _ _ _ H3), !(getattr_int _ _ _ H4).
  cbn [mbind result_bind].
  change (py_int_div (nc * nb) 8) with (Ok (A:=Z) (nc * nb / 8)).
  cbn [mbind result_bind]. unfold py_int_div.
  cbn zeta. destruct (nc * nb / 8 =? 0) eqn:Hb; [done|].
  cbn [mbind result_bind].
  rewrite !(getattr_int _ _ _ H3), !(getattr_int _ _ _ H4).
  cbn [mbind result_bind]. done.
Qed.

(** What a successful [__init__] has computed. *)
Lemma FilterbankFile_init_Ok fs filfn ro warned self :
  FilterbankFile_init fs filfn ro = (warned, Ok self) →
  ∃ file fch1 foff nc nb dt,
    fs !! filfn = Some file ∧
    read_header fs filfn = Ok (header self, header_size self) ∧
    header self !! "fch1" = Some (VFloat fch1) ∧
    header self !! "foff" = Some (VFloat foff) ∧
    header self !! "nchans" = Some (VInt nc) ∧
    header self !! "nbits" = Some (VInt nb) ∧
    frequencies self =
      map (fun i => fch1 + foff * float_of_Z i)%float (np_arange nc) ∧
    is_hifreq_first self = (foff <? 0)%float ∧
    data_size self = Z.of_nat (length file) - Z.of_nat (header_size self) ∧
    bytes_per_spectrum self = nc * nb / 8 ∧
    bytes_per_spectrum self ≠ 0 ∧
    nspec self = data_size self / bytes_per_spectrum self ∧
    warned = (if data_size self mod bytes_per_spectrum self =? 0
              then [] else [warning_text]) ∧
    get_dtype nb = Ok dt ∧
    np_memmap file dt (header_size self) (nspec self, nc) = Ok (spectra self).
Proof.
  intros Hinit.
  destruct (fs !! filfn) as [file|] eqn:Hfs;
    [|unfold FilterbankFile_init in Hinit; rewrite Hfs in Hinit; done].
  destruct (read_header fs filfn) as [[hdr hsize]|e] eqn:Hrh;
    [|unfold FilterbankFile_init in Hinit; rewrite Hfs, Hrh in Hinit; done].
  destruct (getattr hdr "fch1" ≫= as_float) as [fch1|e] eqn:H1;
    [apply getattr_float_Ok in H1
    |unfold FilterbankFile_init in Hinit; rewrite Hfs, Hrh in Hinit;
     cbn [mbind result_bind] in Hinit; rewrite H1 in Hinit; done].
  destruct (getattr hdr "foff" ≫= as_float) as [foff|e] eqn:H2;
    [apply getattr_float_Ok in H2
    |unfold FilterbankFile_init in Hinit; rewrite Hfs, Hrh in Hinit;
     cbn [mbind result_bind] in Hinit;
     rewrite (getattr_float _ _ _ H1) in Hinit;
     cbn [mbind result_bind] in Hinit; rewrite H2 in Hinit; done].
  destruct (getattr hdr "nchans" ≫= as_int) as [nc|e] eqn:H3;
    [apply getattr_int_Ok in H3
    |unfold FilterbankFile_init in Hinit; rewrite Hfs, Hrh in Hinit;
     cbn [mbind result_bind] in Hinit;
     rewrite (getattr_float _ _ _ H1), (getattr_float _ _ _ H2) in Hinit;
     cbn [mbind result_bind] in Hinit; rewrite H3 in Hinit; done].
  destruct (getattr hdr "nbits" ≫= as_int) as [nb|e] eqn:H4;
    [apply getattr_int_Ok in H4
    |unfold FilterbankFile_init in Hinit; rewrite Hfs, Hrh in Hinit;
     cbn [mbind result_bind] in Hinit;
     rewrite !(getattr_float _ _ _ H1), !(getattr_float _ _ _ H2),
       !(getattr_int _ _ _ H3) in Hinit;
     cbn [mbind result_bind] in Hinit; rewrite H4 in Hinit; done].
  rewrite (FilterbankFile_init_fields _ _ _ _ _ _ _ _ _ _ Hfs Hrh H1 H2 H3 H4)
    in Hinit.
  cbn zeta in Hinit.
  destruct (Z.eqb_spec (nc * nb / 8) 0) as [|Hbps]; [done|].
  injection Hinit as Hw Hr.
  apply bind_Ok in Hr as (dt & Hdt & Hr).
  apply bind_Ok in Hr as (mm & Hmm & Hr).
  injection Hr as <-. cbn.
  exists file, fch1, foff, nc, nb, dt. done.
Qed.

(** ** Rows and slices *)

Lemma length_chunks {A} k n (l : list A) : length (chunks k n l) = n.
Proof. revert l. induction n as [|n IH]; intros l; cbn; [done|]. by rewrite IH. Qed.

Lemma concat_chunks {A} k n (l : list A) :
  concat (chunks k n l) = take (n * k) l.
Proof.
  revert l. induction n as [|n IH]; intros l; cbn [chunks concat]; [done|].
  rewrite IH. replace (S n * k)%nat with (k + n * k)%nat by lia.
  apply take_take_drop.
Qed.

Lemma flat_rows w m n (l : list byte) :
  concat (concat (map (chunks w m) (chunks (m * w) n l))) = take (n * (m * w)) l.
Proof.
  revert l. induction n as [|n IH]; intros l; cbn [chunks map concat]; [done|].
  rewrite concat_app, IH, concat_chunks, take_take, Nat.min_id.
  replace (S n * (m * w))%nat with (m * w + n * (m * w))%nat by lia.
  apply take_take_drop.
Qed.

Lemma slice_index_from_end n i :
  0 ≤ n → slice_index n (from_end n i) = slice_index n i.
Proof.
  intros Hn. unfold slice_index, from_end.
  destruct (Z.ltb_spec i 0); [|by destruct (Z.ltb_spec i 0); [lia|]].
  destruct (Z.ltb_spec (Z.max (i + n) 0) 0); lia.
Qed.

Lemma py_slice_nonneg {A} (l : list A) start stop :
  0 ≤ start → 0 ≤ stop →
  py_slice l start stop = truncated_range l start stop.
Proof.
  intros H1 H2. unfold py_slice, truncated_range, slice_index.
  destruct (Z.ltb_spec start 0); [lia|].
  destruct (Z.ltb_spec stop 0); [lia|].
  rewrite (Z.max_l start 0) by lia.
  destruct (Z.le_gt_cases start (Z.of_nat (length l))) as [Hle|Hgt].
  - by rewrite (Z.min_l start) by lia.
  - rewrite (Z.min_r start) by lia.
    rewrite !drop_ge by lia. by rewrite !take_nil.
Qed.

Lemma py_slice_from_end {A} (l : list A) start stop :
  py_slice l start stop =
  truncated_range l (from_end (Z.of_nat (length l)) start)
                    (from_end (Z.of_nat (length l)) stop).
Proof.
  rewrite <- py_slice_nonneg.
  - unfold py_slice. by rewrite !slice_index_from_end by lia.
  - unfold from_end. destruct (Z.ltb_spec start 0); lia.
  - unfold from_end. destruct (Z.ltb_spec stop 0); lia.
Qed.

Lemma py_slice_all {A} (l : list A) k :
  Z.of_nat (length l) ≤ k → py_slice l 0 k = l.
Proof.
  intros Hk. unfold py_slice, slice_index. cbn [Z.ltb Z.compare].
  destruct (Z.ltb_spec k 0); [lia|].
  rewrite Z.min_r, Z.min_l by lia. cbn [Z.to_nat drop].
  rewrite Z.sub_0_r, Nat2Z.id. apply firstn_all.
Qed.

(** The view of an opened file has [nspec] rows, which hold the first
    [nspec * bytes_per_spectrum] bytes of the data region. *)
Lemma opened_rows fs filfn ro warned self :
  FilterbankFile_init fs filfn ro = (warned, Ok self) →
  0 ≤ nspec self ∧ 0 < bytes_per_spectrum self ∧
  length (rows (spectra self)) = Z.to_nat (nspec self) ∧
  ∃ file, fs !! filfn = Some file ∧
    concat (concat (rows (spectra self))) =
      take (Z.to_nat (nspec self * bytes_per_spectrum self))
        (drop (header_size self) file).
Proof.
  intros (file & fch1 & foff & nc & nb & dt & Hfs & _ & _ & _ & _ & _ & _ &
          _ & _ & Hbps & Hne & _ & _ & Hdt & Hmm)%FilterbankFile_init_Ok.
  apply np_memmap_Ok in Hmm as (w & Hw & Hn0 & Hn1 & _ & ->). cbn [rows].
  assert (bytes_per_spectrum self = nc * Z.of_nat w) as Hb.
  { rewrite Hbps.
    apply get_dtype_Ok in Hdt as [[-> ->]|[[-> ->]|[-> ->]]];
      injection Hw as <-.
    - rewrite Z.div_mul by lia. lia.
    - replace (nc * 16) with ((nc * 2) * 8) by lia. rewrite Z.div_mul; lia.
    - replace (nc * 32) with ((nc * 4) * 8) by lia. rewrite Z.div_mul; lia. }
  pose proof (Nat2Z.is_nonneg w) as Hw0.
  split; [done|]. split; [nia|].
  rewrite length_map, length_chunks. split; [done|].
  exists file. split; [done|]. rewrite flat_rows. f_equal. rewrite Hb. nia.
Qed.

Lemma np_memmap_fits file dt w offset n0 n1 :
  dtype_itemsize dt = Some w → 0 ≤ n0 → 0 ≤ n1 →
  n0 * n1 * Z.of_nat w ≤ Z.of_nat (length (drop offset file)) →
  np_memmap file dt offset (n0, n1) =
    Ok {| dtype := dt; shape := (n0, n1);
          rows := map (chunks w (Z.to_nat n1))
                    (chunks (Z.to_nat n1 * w) (Z.to_nat n0)
                       (drop offset file)) |}.
Proof.
  intros Hw H0 H1 Hfit. unfold np_memmap. rewrite Hw.
  destruct (Z.ltb_spec (Z.of_nat (length (drop offset file)))
              (n0 * n1 * Z.of_nat w)); [lia|].
  destruct (Z.ltb_spec n0 0); [lia|]. by destruct (Z.ltb_spec n1 0); [lia|].
Qed.

Lemma typed_float (hdr : gmap string value) name v :
  (∀ n v, hdr !! n = Some v → well_typed n v ∧ is_sentinel n = false) →
  sigproc.header_params name = Some sigproc.TDouble →
  hdr !! name = Some v → ∃ x, v = VFloat x.
Proof.
  intros Hty Hp Hv. apply Hty in Hv as [(t & Ht & Hv) _].
  rewrite Hp in Ht. injection Ht as <-. destruct v; try done. eauto.
Qed.

(** ** The claims on opening *)

(** C4, as the code has it: when the parsed header holds [fch1], [foff],
    [nchans] and [nbits], and [nchans * nbits / 8] is not zero, a value
    of [nbits] outside 8, 16 and 32 makes [__init__] fail with
    [NotImplementedError] (the unsupported-sample-width error); and when
    [__init__] succeeds, [nbits] is 8, 16 or 32 and the dtype of the view
    is [uint8], [uint16] or [float32] respectively. *)
Theorem init_sample_width fs filfn ro file hdr hsize nc nb :
  fs !! filfn = Some file →
  read_header fs filfn = Ok (hdr, hsize) →
  is_Some (hdr !! "fch1") →
  is_Some (hdr !! "foff") →
  hdr !! "nchans" = Some (VInt nc) →
  hdr !! "nbits" = Some (VInt nb) →
  nc * nb / 8 ≠ 0 →
  (nb ≠ 8 → nb ≠ 16 → nb ≠ 32 →
   (FilterbankFile_init fs filfn ro).2 = Raise (NotImplementedError nb)) ∧
  (∀ self, (FilterbankFile_init fs filfn ro).2 = Ok self →
     (nb = 8 ∧ dtype (spectra self) = "uint8") ∨
     (nb = 16 ∧ dtype (spectra self) = "uint16") ∨
     (nb = 32 ∧ dtype (spectra self) = "float32")).
Proof.
  intros Hfs Hrh [v1 H1] [v2 H2] H3 H4 Hbps.
  pose proof (read_header_typed _ _ _ _ Hrh) as [Hty _].
  destruct (typed_float _ "fch1" _ Hty eq_refl H1) as [fch1 ->].
  destruct (typed_float _ "foff" _ Hty eq_refl H2) as [foff ->].
  rewrite (FilterbankFile_init_fields _ _ ro _ _ _ _ _ _ _ Hfs Hrh H1 H2 H3 H4).
  cbn zeta. apply Z.eqb_neq in Hbps as ->. cbn [snd]. split.
  - intros H8 H16 H32. by rewrite get_dtype_unsupported.
  - intros self Hself.
    apply bind_Ok in Hself as (dt & Hdt & Hself).
    apply bind_Ok in Hself as (mm & Hmm & Hself). injection Hself as <-.
    cbn [spectra].
    apply np_memmap_Ok in Hmm as (w & _ & _ & _ & _ & ->). cbn [dtype].
    by apply get_dtype_Ok.
Qed.

Lemma init_sample_width_witness :
  (FilterbankFile_init twelve_bit_fs "twelve.fil" true).2
    = Raise (NotImplementedError 12).
Proof.
  apply (proj1 (init_sample_width twelve_bit_fs "twelve.fil" true
                  (encode_records twelve_bit_records
                     ++ map byte_of_Z [1; 2; 3; 4; 5; 6])%list
                  (header_of twelve_bit_records) 89%nat 2 12
                  eq_refl
                  ltac:(vm_compute; reflexivity)
                  ltac:(vm_compute; eauto)
                  ltac:(vm_compute; eauto)
                  ltac:(vm_compute; reflexivity)
                  ltac:(vm_compute; reflexivity)
                  ltac:(vm_compute; discriminate)));
    discriminate.
Defined.

(** C4 as stated fails: this header holds [nbits = 4], outside 8, 16 and
    32, and opening the file fails with [KeyError] on [fch1], the field
    [__init__] needs first, not with [NotImplementedError]. *)
Lemma init_nbits_only_key_error :
  (∃ h sz, read_header nbits_only_fs "nbits.fil" = Ok (h, sz) ∧
           h !! "nbits" = Some (VInt 4)) ∧
  (FilterbankFile_init nbits_only_fs "nbits.fil" true).2
    = Raise (KeyError "fch1").
Proof.
  split; [|vm_compute; reflexivity].
  exists (header_of nbits_only_records), 43%nat.
  split; vm_compute; reflexivity.
Qed.

(** With all four fields present and [nchans * nbits / 8 = 0] the
    failure is the division's. *)
Example init_four_bit_zero_division :
  (FilterbankFile_init four_bit_fs "four.fil" true).2 = Raise ZeroDivisionError.
Proof. vm_compute. reflexivity. Qed.

(** C5: for every successfully opened file, with [data_size] the file
    size minus [header_size] and [bytes_per_spectrum] the channel count
    times the bits per sample divided by 8,
    [nspec * bytes_per_spectrum <= data_size < (nspec + 1) * bytes_per_spectrum]. *)
Theorem opened_geometry fs filfn ro warned self :
  FilterbankFile_init fs filfn ro = (warned, Ok self) →
  ∃ file nc nb,
    fs !! filfn = Some file ∧
    header self !! "nchans" = Some (VInt nc) ∧
    header self !! "nbits" = Some (VInt nb) ∧
    data_size self = Z.of_nat (length file) - Z.of_nat (header_size self) ∧
    bytes_per_spectrum self = nc * nb / 8 ∧
    nspec self * bytes_per_spectrum self ≤ data_size self ∧
    data_size self < (nspec self + 1) * bytes_per_spectrum self.
Proof.
  intros Hinit.
  pose proof (opened_rows _ _ _ _ _ Hinit) as (_ & Hpos & _).
  apply FilterbankFile_init_Ok in Hinit
    as (file & fch1 & foff & nc & nb & dt & Hfs & _ & _ & _ & H3 & H4 & _ &
        _ & Hds & Hbps & _ & Hn & _).
  exists file, nc, nb. do 5 (split; [done|]). rewrite Hn.
  pose proof (Z.mul_div_le (data_size self) _ Hpos).
  pose proof (Z.mul_succ_div_gt (data_size self) _ Hpos). lia.
Qed.

Lemma opened_geometry_witness :
  ∃ self, FilterbankFile_init scenario_fs "scenario.fil" true
            = ([warning_text], Ok self) ∧
  ∃ file nc nb,
    scenario_fs !! "scenario.fil" = Some file ∧
    header self !! "nchans" = Some (VInt nc) ∧
    header self !! "nbits" = Some (VInt nb) ∧
    data_size self = Z.of_nat (length file) - Z.of_nat (header_size self) ∧
    bytes_per_spectrum self = nc * nb / 8 ∧
    nspec self * bytes_per_spectrum self ≤ data_size self ∧
    data_size self < (nspec self + 1) * bytes_per_spectrum self.
Proof.
  eexists. split; [vm_compute; reflexivity|].
  eapply (opened_geometry scenario_fs "scenario.fil" true).
  vm_compute. reflexivity.
Defined.

(** C6, as the code has it: when the header is read and holds the four
    fields [fch1], [foff], [nchans] and [nbits], the channel count is
    positive and the bits per sample are 8, 16 or 32, a data size that
    is no multiple of [bytes_per_spectrum] does not stop [__init__]: it
    returns the instance, having called [warnings.warn] once; [nspec]
    is the quotient rounded down;
    [get_spectra(0, nspec)] returns exactly [nspec] spectra, and they hold
    the first [nspec * bytes_per_spectrum] bytes of the data, which leaves
    the bytes of the partial spectrum out. *)
Theorem partial_spectrum_dropped fs filfn ro file hdr hsize nc nb :
  fs !! filfn = Some file →
  read_header fs filfn = Ok (hdr, hsize) →
  is_Some (hdr !! "fch1") →
  is_Some (hdr !! "foff") →
  hdr !! "nchans" = Some (VInt nc) →
  hdr !! "nbits" = Some (VInt nb) →
  0 < nc →
  nb = 8 ∨ nb = 16 ∨ nb = 32 →
  (Z.of_nat (length file) - Z.of_nat hsize) mod (nc * nb / 8) ≠ 0 →
  ∃ self,
    FilterbankFile_init fs filfn ro = ([warning_text], Ok self) ∧
    data_size self = Z.of_nat (length file) - Z.of_nat hsize ∧
    bytes_per_spectrum self = nc * nb / 8 ∧
    nspec self = data_size self / bytes_per_spectrum self ∧
    nspec self * bytes_per_spectrum self < data_size self ∧
    length (get_spectra self 0 (nspec self)) = Z.to_nat (nspec self) ∧
    concat (concat (get_spectra self 0 (nspec self))) =
      take (Z.to_nat (nspec self * bytes_per_spectrum self)) (drop hsize file).
Proof.
  intros Hfs Hrh [v1 H1] [v2 H2] H3 H4 Hnc Hnb Hmod.
  pose proof (read_header_typed _ _ _ _ Hrh) as [Hty (file' & Hfs' & Hsz)].
  rewrite Hfs in Hfs'. injection Hfs' as <-.
  destruct (typed_float _ "fch1" _ Hty eq_refl H1) as [fch1 ->].
  destruct (typed_float _ "foff" _ Hty eq_refl H2) as [foff ->].
  set (dsize := Z.of_nat (length file) - Z.of_nat hsize) in *.
  assert (∃ w dt, get_dtype nb = Ok dt ∧ dtype_itemsize dt = Some w ∧
                  0 < Z.of_nat w ∧ nc * nb / 8 = nc * Z.of_nat w)
    as (w & dt & Hdt & Hw & Hw0 & Hb).
  { destruct Hnb as [->|[->| ->]].
    - exists 1%nat, "uint8". do 2 (split; [done|]).
      rewrite Z.div_mul by lia. lia.
    - exists 2%nat, "uint16". do 2 (split; [done|]).
      replace (nc * 16) with ((nc * 2) * 8) by lia. rewrite Z.div_mul; lia.
    - exists 4%nat, "float32". do 2 (split; [done|]).
      replace (nc * 32) with ((nc * 4) * 8) by lia. rewrite Z.div_mul; lia. }
  assert (0 < nc * nb / 8) as Hpos by (rewrite Hb; nia).
  assert (0 ≤ dsize) as Hds by (unfold dsize; lia).
  pose proof (Z.mul_div_le dsize _ Hpos) as Hle.
  pose proof (Z.div_pos dsize _ Hds Hpos) as Hq.
  pose proof (FilterbankFile_init_fields _ _ ro _ _ _ _ _ _ _
                Hfs Hrh H1 H2 H3 H4) as Hinit.
  cbn zeta in Hinit. fold dsize in Hinit.
  destruct (Z.eqb_spec (nc * nb / 8) 0) as [Hz|Hz]; [lia|].
  destruct (Z.eqb_spec (dsize mod (nc * nb / 8)) 0) as [Hm|Hm]; [done|].
  rewrite Hdt in Hinit. cbn [mbind result_bind] in Hinit.
  rewrite (np_memmap_fits _ _ w) in Hinit; [|done|done|lia|].
  2:{ rewrite length_drop.
      replace (Z.of_nat (length file - hsize)) with dsize by (unfold dsize; lia).
      rewrite <- Z.mul_assoc, <- Hb. lia. }
  cbn [mbind result_bind] in Hinit.
  eexists. split; [exact Hinit|].
  pose proof (opened_rows _ _ _ _ _ Hinit) as (_ & _ & Hlen & file' & Hfs' & Hcat).
  rewrite Hfs in Hfs'. injection Hfs' as <-.
  cbn [data_size bytes_per_spectrum nspec header_size] in *.
  do 3 (split; [done|]). split.
  { pose proof (Z.div_mod dsize (nc * nb / 8) ltac:(lia)).
    pose proof (Z.mod_pos_bound dsize _ Hpos). lia. }
  unfold get_spectra. rewrite py_slice_all by (rewrite Hlen; lia).
  done.
Qed.

Lemma partial_spectrum_dropped_witness :
  ∃ self,
    FilterbankFile_init scenario_fs "scenario.fil" true
      = ([warning_text], Ok self) ∧
    data_size self = Z.of_nat (length scenario_file) - Z.of_nat 106 ∧
    bytes_per_spectrum self = 4 * 8 / 8 ∧
    nspec self = data_size self / bytes_per_spectrum self ∧
    nspec self * bytes_per_spectrum self < data_size self ∧
    length (get_spectra self 0 (nspec self)) = Z.to_nat (nspec self) ∧
    concat (concat (get_spectra self 0 (nspec self))) =
      take (Z.to_nat (nspec self * bytes_per_spectrum self))
        (drop 106 scenario_file).
Proof.
  apply (partial_spectrum_dropped scenario_fs "scenario.fil" true
           scenario_file (header_of scenario_records) 106%nat 4 8
           eq_refl
           ltac:(vm_compute; reflexivity)
           ltac:(vm_compute; eauto)
           ltac:(vm_compute; eauto)
           ltac:(vm_compute; reflexivity)
           ltac:(vm_compute; reflexivity)
           ltac:(lia)
           ltac:(auto)
           ltac:(vm_compute; discriminate)).
Defined.

(** C6 as stated fails: the data size of this file, 7, is no multiple of
    its [bytes_per_spectrum], 3, and opening it does not succeed: the
    warning is given, and then the sample width of 12 bits is refused
    with [NotImplementedError]. *)
Lemma partial_spectrum_width_refused :
  (∃ h sz,
     twelve_bit_partial_fs !! "partial.fil" = Some twelve_bit_partial_file ∧
     read_header twelve_bit_partial_fs "partial.fil" = Ok (h, sz) ∧
     h !! "nchans" = Some (VInt 2) ∧
     h !! "nbits" = Some (VInt 12) ∧
     (Z.of_nat (length twelve_bit_partial_file) - Z.of_nat sz)
       mod (2 * 12 / 8) = 1) ∧
  FilterbankFile_init twelve_bit_partial_fs "partial.fil" true
    = ([warning_text], Raise (NotImplementedError 12)).
Proof.
  split; [|vm_compute; reflexivity].
  exists (header_of twelve_bit_records), 89%nat.
  repeat split; vm_compute; reflexivity.
Qed.

(** The spec's scenario: [data_size = 10] and [bytes_per_spectrum = 4]
    give [nspec = 2], one warning, and two spectra from [get_spectra(0, 2)]
    without the last two bytes. *)
Example scenario_two_spectra :
  ∃ self,
    FilterbankFile_init scenario_fs "scenario.fil" true
      = ([warning_text], Ok self) ∧
    data_size self = 10 ∧ bytes_per_spectrum self = 4 ∧ nspec self = 2 ∧
    get_spectra self 0 2 =
      [ [[byte_of_Z 1]; [byte_of_Z 2]; [byte_of_Z 3]; [byte_of_Z 4]];
        [[byte_of_Z 5]; [byte_of_Z 6]; [byte_of_Z 7]; [byte_of_Z 8]] ].
Proof. eexists. split; [vm_compute; reflexivity|]. vm_compute. done. Qed.

(** ** The claims on access *)

Lemma scenario_opened :
  FilterbankFile_init scenario_fs "scenario.fil" true
    = ([warning_text], Ok scenario_handle).
Proof. vm_compute. reflexivity. Qed.

(** C9, as the code has it: [get_spectra] is [self.spectra[start:stop]]
    and never raises.  A bound beyond [nspec] is cut down to [nspec]; a
    negative bound is first counted from the end ([i + nspec], at least
    0), it is not cut to 0.  So for bounds that are not negative the
    outcome is the requested range truncated to [[0, nspec)], what is
    returned is always a run of consecutive spectra of the view, and
    [get_spectra(0, k)] with [k >= nspec] returns exactly the [nspec]
    spectra. *)
Theorem get_spectra_slice fs filfn ro warned self :
  FilterbankFile_init fs filfn ro = (warned, Ok self) →
  length (rows (spectra self)) = Z.to_nat (nspec self) ∧
  ∀ start stop,
    get_spectra self start stop =
      truncated_range (rows (spectra self))
        (from_end (nspec self) start) (from_end (nspec self) stop) ∧
    (0 ≤ start → 0 ≤ stop →
     get_spectra self start stop =
       truncated_range (rows (spectra self)) start stop) ∧
    (∃ before after,
       rows (spectra self) = (before ++ get_spectra self start stop ++ after)%list) ∧
    (start = 0 → nspec self ≤ stop →
     get_spectra self start stop = rows (spectra self) ∧
     length (get_spectra self start stop) = Z.to_nat (nspec self)).
Proof.
  intros Hinit.
  pose proof (opened_rows _ _ _ _ _ Hinit) as (Hn & _ & Hlen & _).
  split; [done|]. intros start stop. unfold get_spectra.
  assert (Z.of_nat (length (rows (spectra self))) = nspec self) as Hlen'
    by lia.
  split; [|split; [|split]].
  - by rewrite py_slice_from_end, Hlen'.
  - apply py_slice_nonneg.
  - unfold py_slice.
    set (k := Z.to_nat (_ - _)). set (lo := Z.to_nat _).
    exists (take lo (rows (spectra self))),
           (drop k (drop lo (rows (spectra self)))).
    by rewrite take_drop, take_drop.
  - intros -> Hstop. rewrite py_slice_all by lia. done.
Qed.

Lemma get_spectra_slice_witness :
  length (rows (spectra scenario_handle)) = Z.to_nat (nspec scenario_handle) ∧
  ∀ start stop,
    get_spectra scenario_handle start stop =
      truncated_range (rows (spectra scenario_handle))
        (from_end (nspec scenario_handle) start)
        (from_end (nspec scenario_handle) stop) ∧
    (0 ≤ start → 0 ≤ stop →
     get_spectra scenario_handle start stop =
       truncated_range (rows (spectra scenario_handle)) start stop) ∧
    (∃ before after,
       rows (spectra scenario_handle) =
         (before ++ get_spectra scenario_handle start stop ++ after)%list) ∧
    (start = 0 → nspec scenario_handle ≤ stop →
     get_spectra scenario_handle start stop = rows (spectra scenario_handle) ∧
     length (get_spectra scenario_handle start stop)
       = Z.to_nat (nspec scenario_handle)).
Proof.
  apply (get_spectra_slice scenario_fs "scenario.fil" true [warning_text]).
  vm_compute. reflexivity.
Defined.

(** C9 as stated fails for a negative bound: on the two spectra of the
    scenario file, [get_spectra(-1, 2)] is the last spectrum alone, while
    the range [[-1, 2)] truncated to the valid range holds both. *)
Lemma get_spectra_negative_start :
  nspec scenario_handle = 2 ∧
  get_spectra scenario_handle (-1) 2
    = [ [[byte_of_Z 5]; [byte_of_Z 6]; [byte_of_Z 7]; [byte_of_Z 8]] ] ∧
  truncated_range (rows (spectra scenario_handle)) (-1) 2
    = rows (spectra scenario_handle) ∧
  get_spectra scenario_handle (-1) 2
    ≠ truncated_range (rows (spectra scenario_handle)) (-1) 2.
Proof. vm_compute. repeat split. discriminate. Qed.

Lemma round_half_even_nearest m e :
  is_nearest m e (round_half_even m e).
Proof.
  unfold is_nearest, round_half_even.
  destruct (Z.leb_spec 0 e); [done|].
  assert (0 < 2 ^ (- e)) as Hd by (apply Z.pow_pos_nonneg; lia).
  pose proof (Z.div_mod m (2 ^ (- e)) ltac:(lia)) as Hdm.
  pose proof (Z.mod_pos_bound m _ Hd) as Hr.
  destruct (Z.compare_spec (2 * (m mod 2 ^ (- e))) (2 ^ (- e)));
    [destruct (Z.even _)| |]; nia.
Qed.

Lemma int_np_round_nearest x :
  is_finite_float x = true → ∃ n, int_np_round x = Ok n ∧ nearest_int x n.
Proof.
  unfold is_finite_float, int_np_round, nearest_int.
  destruct (Prim2SF x) as [s|s| |s m e]; try done; intros _.
  - by exists 0.
  - eexists. split; [done|]. eexists. split; [done|].
    apply round_half_even_nearest.
Qed.

(** C8: when the header holds a non-zero [tsamp] and both quotients
    [start/tsamp] and [stop/tsamp] are finite, [get_timeslice(start,
    stop)] returns what [get_spectra(a, b)] returns, where [a] and [b]
    are [int(np.round(start/tsamp))] and [int(np.round(stop/tsamp))],
    integers nearest to the two quotients. *)
Theorem get_timeslice_rounds self start stop tsamp :
  header self !! "tsamp" = Some (VFloat tsamp) →
  (tsamp =? 0)%float = false →
  is_finite_float (start / tsamp) = true →
  is_finite_float (stop / tsamp) = true →
  ∃ a b,
    int_np_round (start / tsamp) = Ok a ∧ nearest_int (start / tsamp) a ∧
    int_np_round (stop / tsamp) = Ok b ∧ nearest_int (stop / tsamp) b ∧
    get_timeslice self start stop = Ok (get_spectra self a b).
Proof.
  intros Ht Hnz Hfa Hfb.
  destruct (int_np_round_nearest _ Hfa) as (a & Ha & Hna).
  destruct (int_np_round_nearest _ Hfb) as (b & Hb & Hnb).
  exists a, b. do 4 (split; [done|]).
  unfold get_timeslice. rewrite !(getattr_float _ _ _ Ht).
  cbn [mbind result_bind]. unfold py_float_div. rewrite Hnz.
  cbn [mbind result_bind]. rewrite Ha. cbn [mbind result_bind].
  rewrite Hb. done.
Qed.

Lemma get_timeslice_rounds_witness :
  ∃ a b,
    int_np_round (0x1.0624dd2f1a9fcp-10 / 0x1.0624dd2f1a9fcp-10) = Ok a ∧
    nearest_int (0x1.0624dd2f1a9fcp-10 / 0x1.0624dd2f1a9fcp-10) a ∧
    int_np_round (0.25 / 0x1.0624dd2f1a9fcp-10) = Ok b ∧
    nearest_int (0.25 / 0x1.0624dd2f1a9fcp-10) b ∧
    get_timeslice scenario_handle 0x1.0624dd2f1a9fcp-10 0.25
      = Ok (get_spectra scenario_handle a b).
Proof.
  apply (get_timeslice_rounds scenario_handle
           0x1.0624dd2f1a9fcp-10 0.25 0x1.0624dd2f1a9fcp-10);
    vm_compute; reflexivity.
Defined.

(** The scenario's time slice from 0.001 s to 0.25 s is the slice of
    spectra from 1 to 250, of which the file holds the second only. *)
Example scenario_timeslice :
  get_timeslice scenario_handle 0x1.0624dd2f1a9fcp-10 0.25
    = Ok (get_spectra scenario_handle 1 250) ∧
  get_spectra scenario_handle 1 250
    = [ [[byte_of_Z 5]; [byte_of_Z 6]; [byte_of_Z 7]; [byte_of_Z 8]] ].
Proof. vm_compute. done. Qed.

(** ** [create_filterbank_file] *)

(** C1, on the code: whatever the header and the spectra,
    [create_filterbank_file] raises [NameError] on [self] after it has
    written the start sentinel; the file then holds that one record, and
    opening it fails on the truncated header.  No file it writes can be
    opened, so the round trip of the claim does not hold. *)
Theorem create_filterbank_file_name_error fs outfn hdr arr verbose :
  (create_filterbank_file fs outfn hdr arr verbose).2
    = Raise (NameError "self") ∧
  (create_filterbank_file fs outfn hdr arr verbose).1 !! outfn
    = Some (sigproc.prep_string "HEADER_START") ∧
  (FilterbankFile_init (create_filterbank_file fs outfn hdr arr verbose).1
     outfn true).2 = Raise (IOError "truncated stream").
Proof.
  unfold create_filterbank_file.
  change (sigproc.addto_hdr "HEADER_START" VNone)
    with (Ok (sigproc.prep_string "HEADER_START")).
  change (load_global "self") with (Raise (A:=pyobj) (NameError "self")).
  cbn [fst snd].
  assert (fwrite (<[outfn:=[]]> fs) outfn (sigproc.prep_string "HEADER_START")
            !! outfn = Some (sigproc.prep_string "HEADER_START")) as Hfs.
  { unfold fwrite. by rewrite lookup_insert_eq, lookup_insert_eq. }
  split; [done|]. split; [done|].
  unfold FilterbankFile_init. rewrite Hfs.
  rewrite (read_header_unfold _ _ _ 2 (Raise (IOError "truncated stream")) Hfs);
    [done|].
  vm_compute. reflexivity.
Qed.

(** ** Binary64 rounding

    The primitive operations on doubles are specified by the Standard
    Library's [SpecFloat] functions.  What follows reads those functions
    as rounding to nearest, ties to even, of an exact value and derives
    that [fch1 + foff * i] is monotone in the int [i]. *)

(** *** Digits *)

Lemma digits2_pos_size p : digits2_pos p = Pos.size p.
Proof. induction p; cbn; congruence. Qed.

Lemma Zdigits2_log2 p : Zdigits2 (Z.pos p) = Z.log2 (Z.pos p) + 1.
Proof.
  cbn [Zdigits2]. rewrite digits2_pos_size.
  destruct p; cbn [Z.log2 Pos.size]; lia.
Qed.

Lemma Zdigits2_bounds m :
  0 < m → 0 < Zdigits2 m ∧ 2 ^ (Zdigits2 m - 1) ≤ m < 2 ^ Zdigits2 m.
Proof.
  intros Hm. destruct m as [|p|p]; try lia.
  rewrite Zdigits2_log2. pose proof (Z.log2_nonneg (Z.pos p)).
  pose proof (Z.log2_spec (Z.pos p) Hm) as Hs.
  replace (Z.log2 (Z.pos p) + 1 - 1) with (Z.log2 (Z.pos p)) by lia.
  unfold Z.succ in Hs. lia.
Qed.

Lemma Zdigits2_unique m d :
  2 ^ (d - 1) ≤ m < 2 ^ d → 0 < d → Zdigits2 m = d.
Proof.
  intros Hb Hd.
  assert (0 < m) as Hm by (pose proof (Z.pow_pos_nonneg 2 (d - 1)); lia).
  destruct m as [|p|p]; try lia.
  rewrite Zdigits2_log2.
  rewrite (Z.log2_unique (Z.pos p) (d - 1)); [lia|lia|].
  unfold Z.succ. by replace (d - 1 + 1) with d by lia.
Qed.

Lemma Zdigits2_le m m' : 0 < m → m ≤ m' → Zdigits2 m ≤ Zdigits2 m'.
Proof.
  intros Hm Hle. destruct m as [|p|p]; try lia. destruct m' as [|p'|p']; try lia.
  rewrite !Zdigits2_log2. pose proof (Z.log2_le_mono _ _ Hle). lia.
Qed.

Lemma Zdigits2_mul_pow m a :
  0 < m → 0 ≤ a → Zdigits2 (m * 2 ^ a) = Zdigits2 m + a.
Proof.
  intros Hm Ha. pose proof (Zdigits2_bounds m Hm) as (Hd & Hlo & Hhi).
  apply Zdigits2_unique; [|lia].
  replace (Zdigits2 m + a - 1) with (Zdigits2 m - 1 + a) by lia.
  rewrite !Z.pow_add_r by lia.
  pose proof (Z.pow_pos_nonneg 2 a ltac:(lia) Ha). nia.
Qed.

Lemma Zdigits2_lt_pow m d : 0 < m → m < 2 ^ d → Zdigits2 m ≤ d.
Proof.
  intros Hm Hlt. pose proof (Zdigits2_bounds m Hm) as (Hd & Hlo & _).
  destruct (Z.le_gt_cases (Zdigits2 m) d) as [|Hgt]; [done|].
  pose proof (Z.pow_le_mono_r 2 d (Zdigits2 m - 1) ltac:(lia) ltac:(lia)). lia.
Qed.

Lemma rne_bounds M g : M / g ≤ rne M g ≤ M / g + 1.
Proof. unfold rne. destruct (_ ?= _); [destruct (Z.even _)| |]; lia. Qed.

Lemma rne_exact M g : 0 < g → M mod g = 0 → rne M g = M / g.
Proof.
  intros Hg Hm. unfold rne. rewrite Hm.
  destruct (Z.compare_spec (2 * 0) g); lia.
Qed.

Lemma rne_mul p g : 0 < g → rne (p * g) g = p.
Proof.
  intros Hg. rewrite rne_exact; [by rewrite Z.div_mul by lia|done|].
  by rewrite Z.mod_mul by lia.
Qed.

Lemma rne_mono M1 M2 g : 0 < g → M1 ≤ M2 → rne M1 g ≤ rne M2 g.
Proof.
  intros Hg Hle.
  pose proof (Z.div_le_mono M1 M2 g Hg Hle) as Hq.
  pose proof (rne_bounds M1 g). pose proof (rne_bounds M2 g).
  destruct (Z.eq_dec (M1 / g) (M2 / g)) as [Heq|Hne]; [|lia].
  pose proof (Z.div_mod M1 g ltac:(lia)) as H1.
  pose proof (Z.div_mod M2 g ltac:(lia)) as H2.
  assert (M1 mod g ≤ M2 mod g) as Hr by (rewrite Heq in H1; lia).
  unfold rne. rewrite Heq.
  destruct (Z.compare_spec (2 * (M1 mod g)) g);
    destruct (Z.compare_spec (2 * (M2 mod g)) g);
    destruct (Z.even (M2 / g)); lia.
Qed.

Lemma rne_scale M g c : 0 < g → 0 < c → rne (M * c) (g * c) = rne M g.
Proof.
  intros Hg Hc. unfold rne.
  rewrite Z.div_mul_cancel_r by lia.
  rewrite Z.mul_mod_distr_r by lia.
  assert ((2 * (M mod g * c) ?= g * c) = (2 * (M mod g) ?= g)) as ->; [|done].
  destruct (Z.compare_spec (2 * (M mod g)) g);
    [apply Z.compare_eq_iff|apply Z.compare_lt_iff|apply Z.compare_gt_iff]; nia.
Qed.

Lemma rne_0 g : 0 < g → rne 0 g = 0.
Proof. intros Hg. rewrite rne_exact; [by rewrite Z.div_0_l by lia|done|]. by rewrite Z.mod_0_l by lia. Qed.

Lemma cexp_ge v : 0 ≤ cexp v - E0.
Proof. unfold cexp, fexp, emin, E0, emax, prec. lia. Qed.

Lemma rnd_0 : rnd 0 = 0.
Proof. unfold rnd. rewrite rne_0; [lia|]. apply Z.pow_pos_nonneg; [lia|]. pose proof (cexp_ge 0). lia. Qed.

Lemma rnd_le_pow v a :
  v ≤ 2 ^ a → cexp v - E0 ≤ a → rnd v ≤ 2 ^ a.
Proof.
  intros Hv Ha. unfold rnd. pose proof (cexp_ge v) as Hk.
  set (k := cexp v - E0) in *.
  assert (0 < 2 ^ k) as Hg by (apply Z.pow_pos_nonneg; lia).
  replace (2 ^ a) with (2 ^ (a - k) * 2 ^ k) in *
    by (rewrite <- Z.pow_add_r by lia; f_equal; lia).
  pose proof (rne_mono _ _ _ Hg Hv) as Hm. rewrite rne_mul in Hm by done.
  nia.
Qed.

Lemma rnd_ge_pow v a :
  2 ^ a ≤ v → cexp v - E0 ≤ a → 2 ^ a ≤ rnd v.
Proof.
  intros Hv Ha. unfold rnd. pose proof (cexp_ge v) as Hk.
  set (k := cexp v - E0) in *.
  assert (0 < 2 ^ k) as Hg by (apply Z.pow_pos_nonneg; lia).
  replace (2 ^ a) with (2 ^ (a - k) * 2 ^ k) in *
    by (rewrite <- Z.pow_add_r by lia; f_equal; lia).
  pose proof (rne_mono _ _ _ Hg Hv) as Hm. rewrite rne_mul in Hm by done.
  nia.
Qed.

Lemma rnd_nonneg v : 0 ≤ v → 0 ≤ rnd v.
Proof.
  intros Hv. unfold rnd. pose proof (cexp_ge v) as Hk.
  set (k := cexp v - E0) in *.
  assert (0 < 2 ^ k) as Hg by (apply Z.pow_pos_nonneg; lia).
  pose proof (rne_bounds v (2 ^ k)). pose proof (Z.div_pos v _ Hv Hg). nia.
Qed.

Lemma rnd_mono v1 v2 : 0 ≤ v1 → v1 ≤ v2 → rnd v1 ≤ rnd v2.
Proof.
  intros H0 Hle.
  destruct (Z.eq_dec v1 0) as [->|Hnz].
  { rewrite rnd_0. apply rnd_nonneg. lia. }
  assert (0 < v1) as Hv1 by lia. assert (0 < v2) as Hv2 by lia.
  pose proof (Zdigits2_le _ _ Hv1 Hle) as Hd.
  pose proof (Zdigits2_bounds v1 Hv1) as (Hd1 & _ & Hhi1).
  pose proof (Zdigits2_bounds v2 Hv2) as (Hd2 & Hlo2 & _).
  destruct (Z.eq_dec (cexp v1) (cexp v2)) as [Hc|Hc].
  - unfold rnd. rewrite Hc. pose proof (cexp_ge v2) as Hk.
    set (k := cexp v2 - E0) in *.
    assert (0 < 2 ^ k) as Hg by (apply Z.pow_pos_nonneg; lia).
    pose proof (rne_mono _ _ _ Hg Hle). nia.
  - assert (cexp v1 < cexp v2) as Hlt by (unfold cexp, fexp in *; lia).
    assert (Zdigits2 v1 < Zdigits2 v2 ∧ cexp v2 = Zdigits2 v2 + E0 - prec)
      as [Hdlt Hc2] by (unfold cexp, fexp in *; lia).
    transitivity (2 ^ (Zdigits2 v2 - 1)).
    + apply rnd_le_pow.
      * pose proof (Z.pow_le_mono_r 2 (Zdigits2 v1) (Zdigits2 v2 - 1)
                      ltac:(lia) ltac:(lia)). lia.
      * unfold prec in *. lia.
    + apply rnd_ge_pow; [done|]. unfold prec in *. lia.
Qed.

Lemma rnd_exact v :
  v mod 2 ^ (cexp v - E0) = 0 → rnd v = v.
Proof.
  intros Hm. unfold rnd. pose proof (cexp_ge v) as Hk.
  set (k := cexp v - E0) in *.
  assert (0 < 2 ^ k) as Hg by (apply Z.pow_pos_nonneg; lia).
  rewrite rne_exact by done.
  pose proof (Z.div_mod v (2 ^ k) ltac:(lia)). lia.
Qed.

(** *** The shift-right loop of [SpecFloat] *)

Lemma iter_pos_nat {A} (f : A → A) p x :
  SpecFloat.iter_pos f p x = Nat.iter (Pos.to_nat p) f x.
Proof.
  revert x. induction p as [p IH|p IH|]; intros x; cbn [SpecFloat.iter_pos].
  - rewrite !IH, Pos2Nat.inj_xI.
    replace (S (2 * Pos.to_nat p)) with (Pos.to_nat p + S (Pos.to_nat p))%nat by lia.
    rewrite Nat.iter_add. f_equal. by rewrite Nat.iter_succ_r.
  - rewrite !IH, Pos2Nat.inj_xO.
    replace (2 * Pos.to_nat p)%nat with (Pos.to_nat p + Pos.to_nat p)%nat by lia.
    by rewrite Nat.iter_add.
  - reflexivity.
Qed.

Lemma shr_1_nonneg m r s :
  0 ≤ m →
  shr_1 {| shr_m := m; shr_r := r; shr_s := s |} =
  {| shr_m := m / 2; shr_r := Z.odd m; shr_s := r || s |}.
Proof.
  intros Hm. rewrite <- Z.div2_div.
  destruct m as [|[p|p|]|]; try lia; reflexivity.
Qed.

Lemma shr_inv_0 M : shr_inv M 0 {| shr_m := M; shr_r := false; shr_s := false |}.
Proof.
  unfold shr_inv. cbn [shr_m shr_r shr_s]. rewrite Z.pow_0_r, Z.div_1_r, !Z.mod_1_r.
  done.
Qed.

Lemma shr_inv_step M k mrs :
  0 ≤ M → 0 ≤ k → shr_inv M k mrs → shr_inv M (k + 1) (shr_1 mrs).
Proof.
  intros HM Hk. destruct mrs as [m r s]. unfold shr_inv. cbn [shr_m shr_r shr_s].
  intros (-> & -> & ->).
  assert (0 < 2 ^ k) as Hg by (apply Z.pow_pos_nonneg; lia).
  set (g := 2 ^ k) in *.
  rewrite shr_1_nonneg by (apply Z.div_pos; lia). cbn [shr_m shr_r shr_s].
  rewrite Z.pow_add_r, Z.pow_1_r by lia. fold g.
  rewrite <- Z.div_div by lia.
  rewrite (Z.rem_mul_r M g 2) by lia.
  pose proof (Z.mod_pos_bound M g Hg) as Hr.
  pose proof (Zmod_odd (M / g)) as Hodd.
  set (r0 := M mod g) in *. set (m := M / g) in *.
  split; [done|]. split.
  - destruct (Z.odd m); rewrite Hodd.
    + symmetry. apply Z.leb_le. lia.
    + symmetry. apply Z.leb_gt. lia.
  - assert ((2 * (r0 + g * (m mod 2))) mod (g * 2) = 2 * r0) as ->.
    { replace (2 * (r0 + g * (m mod 2))) with (2 * r0 + (m mod 2) * (g * 2)) by lia.
      rewrite Z.mod_add by lia. apply Z.mod_small. lia. }
    destruct (Z.eqb_spec (2 * r0) 0) as [Hz|Hz].
    + rewrite Hz, Z.mod_0_l by lia. cbn [Z.eqb negb orb].
      destruct (Z.leb_spec g 0); [lia|done].
    + cbn [negb]. destruct (Z.leb_spec g (2 * r0)); [done|].
      cbn [orb]. rewrite Z.mod_small by lia.
      by destruct (Z.eqb_spec (2 * r0) 0).
Qed.

Lemma shr_inv_iter M (n : nat) :
  0 ≤ M →
  shr_inv M (Z.of_nat n)
    (Nat.iter n shr_1 {| shr_m := M; shr_r := false; shr_s := false |}).
Proof.
  intros HM. induction n as [|n IH]; [apply shr_inv_0|].
  rewrite Nat2Z.inj_succ. unfold Z.succ. cbn [Nat.iter nat_rect].
  apply shr_inv_step; [done|lia|done].
Qed.

Lemma shr_inv_round M k mrs :
  0 ≤ k → shr_inv M k mrs →
  round_nearest_even (shr_m mrs) (loc_of_shr_record mrs) = rne M (2 ^ k).
Proof.
  intros Hk. destruct mrs as [m r s]. unfold shr_inv. cbn [shr_m shr_r shr_s].
  intros (-> & -> & ->).
  assert (0 < 2 ^ k) as Hg by (apply Z.pow_pos_nonneg; lia).
  set (g := 2 ^ k) in *.
  pose proof (Z.mod_pos_bound M g Hg) as Hr.
  set (r0 := M mod g) in *. unfold rne. fold r0.
  destruct (Z.leb_spec g (2 * r0)) as [Hge|Hlt].
  - destruct (Z.eqb_spec ((2 * r0) mod g) 0) as [Hz|Hz]; cbn.
    + assert (2 * r0 = g) as Heq.
      { pose proof (Z.div_mod (2 * r0) g ltac:(lia)) as Hdm.
        rewrite Hz in Hdm. set (q := (2 * r0) / g) in *.
        assert (q = 1) as Hq; [|rewrite Hq in Hdm; lia].
        destruct (Z.lt_trichotomy q 1) as [Hq|[Hq|Hq]]; [|done|]; nia. }
      rewrite Heq, Z.compare_refl. done.
    + assert (g < 2 * r0) as Hgt.
      { destruct (Z.eq_dec (2 * r0) g) as [Heq|]; [|lia].
        rewrite Heq, Z.mod_same in Hz by lia. done. }
      apply Z.compare_gt_iff in Hgt as ->. done.
  - apply Z.compare_lt_iff in Hlt as ->.
    by destruct (negb _).
Qed.

Lemma shr_exact_spec M e n mrs e' :
  0 ≤ M → 0 < n →
  shr {| shr_m := M; shr_r := false; shr_s := false |} e n = (mrs, e') →
  e' = e + n ∧ shr_m mrs = M / 2 ^ n ∧
  round_nearest_even (shr_m mrs) (loc_of_shr_record mrs) = rne M (2 ^ n).
Proof.
  intros HM Hn. destruct n as [|p|p]; try lia. cbn [shr].
  intros [= <- <-]. rewrite iter_pos_nat.
  pose proof (shr_inv_iter M (Pos.to_nat p) HM) as Hinv.
  rewrite positive_nat_Z in Hinv.
  split; [done|]. split; [apply Hinv|].
  by apply shr_inv_round.
Qed.

Lemma shr_nonpos mrs e n : n ≤ 0 → shr mrs e n = (mrs, e).
Proof. intros Hn. destruct n; try lia; reflexivity. Qed.

(** *** [binary_round_aux] rounds to nearest even *)

Lemma two_pow_pos a : 0 ≤ a → 0 < 2 ^ a.
Proof. intros. by apply Z.pow_pos_nonneg. Qed.

Lemma two_pow_le a b : a ≤ b → 2 ^ a ≤ 2 ^ b.
Proof. intros. apply Z.pow_le_mono_r; lia. Qed.

Lemma two_pow_lt a b : 0 ≤ b → a < b → 2 ^ a < 2 ^ b.
Proof. intros. apply Z.pow_lt_mono_r; lia. Qed.

Lemma two_pow_split a b : 0 ≤ a → 0 ≤ b → 2 ^ (a + b) = 2 ^ a * 2 ^ b.
Proof. intros. by apply Z.pow_add_r. Qed.

Lemma rnd_scaled mx ex :
  0 < mx → E0 ≤ ex → ex ≤ fexp prec emax (Zdigits2 mx + ex) →
  cexp (mx * 2 ^ (ex - E0)) = fexp prec emax (Zdigits2 mx + ex) ∧
  rnd (mx * 2 ^ (ex - E0)) =
    rne mx (2 ^ (fexp prec emax (Zdigits2 mx + ex) - ex))
      * 2 ^ (fexp prec emax (Zdigits2 mx + ex) - E0).
Proof.
  intros Hmx Hex Hn.
  assert (cexp (mx * 2 ^ (ex - E0)) = fexp prec emax (Zdigits2 mx + ex)) as Hc.
  { unfold cexp. rewrite Zdigits2_mul_pow by lia. f_equal. lia. }
  split; [done|]. unfold rnd. rewrite Hc.
  set (c := fexp prec emax (Zdigits2 mx + ex)) in *.
  f_equal.
  replace (c - E0) with ((c - ex) + (ex - E0)) by lia.
  rewrite two_pow_split by lia.
  apply rne_scale; apply two_pow_pos; lia.
Qed.

Lemma bra_spec sx mx ex :
  0 < mx → E0 ≤ ex → ex ≤ fexp prec emax (Zdigits2 mx + ex) →
  represents sx (rnd (mx * 2 ^ (ex - E0)))
    (binary_round_aux prec emax sx mx ex loc_Exact).
Proof.
  intros Hmx Hex Hn.
  destruct (rnd_scaled mx ex Hmx Hex Hn) as [_ ->].
  pose proof (Zdigits2_bounds mx Hmx) as (Hd & Hlo & Hhi).
  unfold binary_round_aux, shr_fexp.
  set (d := Zdigits2 mx) in *.
  set (c := fexp prec emax (d + ex)) in *.
  assert (emin ≤ c ∧ d + ex - prec ≤ c ∧ (c = emin ∨ c = d + ex - prec))
    as (Hc1 & Hc2 & Hc3) by (unfold c, fexp; lia).
  cbn [shr_record_of_loc].
  destruct (Z.eq_dec (c - ex) 0) as [Hz|Hnz].
  - (* no shift *)
    rewrite Hz. cbn [shr]. cbn [shr_m loc_of_shr_record round_nearest_even].
    cbn [shr_record_of_loc]. fold d. fold c. rewrite Hz. cbn [shr shr_m].
    rewrite Z.pow_0_r.
    assert (rne mx 1 = mx) as ->.
    { rewrite rne_exact by (try apply Z.mod_1_r; lia). apply Z.div_1_r. }
    destruct mx as [|p|p]; try lia.
    assert (c = ex) as Hce by lia. rewrite Hce.
    assert (d ≤ prec) as Hdp by lia.
    pose proof (two_pow_pos (ex - E0) ltac:(lia)) as Hpa.
    destruct (Z.leb_spec ex (emax - prec)) as [Hfin|Hinf].
    + right; left. split.
      * split; [lia|]. unfold Omega.
        pose proof (two_pow_le d prec Hdp).
        pose proof (two_pow_le (prec + (ex - E0)) (emax - E0) ltac:(lia)) as Hle.
        rewrite two_pow_split in Hle by (unfold prec; lia). nia.
      * exists p, ex. done.
    + right; right. split; [|done]. unfold Omega.
      assert (d = prec) as Hdeq by (unfold emin, emax, prec in *; lia).
      rewrite Hdeq in Hlo.
      pose proof (two_pow_le (emax - E0) ((prec - 1) + (ex - E0)) ltac:(lia)) as Hle.
      rewrite two_pow_split in Hle by (unfold prec; lia). nia.
  - (* a shift by [n > 0] *)
    assert (0 < c - ex) as Hpos by lia.
    destruct (shr _ ex (c - ex)) as [mrs' e'] eqn:Hshr.
    apply shr_exact_spec in Hshr as (-> & Hm' & ->); [|lia|lia].
    set (n := c - ex) in *.
    replace (ex + n) with c by (unfold n; lia).
    pose proof (two_pow_pos n ltac:(lia)) as Hgn.
    pose proof (rne_bounds mx (2 ^ n)) as Hb.
    assert (0 ≤ mx / 2 ^ n) as Hq0 by (apply Z.div_pos; lia).
    assert (mx / 2 ^ n < 2 ^ prec) as Hqhi.
    { apply Z.div_lt_upper_bound; [lia|].
      pose proof (two_pow_le d (n + prec) ltac:(unfold n; lia)) as Hle.
      rewrite two_pow_split in Hle by (unfold prec; lia). lia. }
    set (m1 := rne mx (2 ^ n)) in *.
    pose proof (two_pow_pos (c - E0) ltac:(unfold emin, emax, prec, E0 in *; lia)) as Hpk.
    destruct (Z.eq_dec m1 0) as [Hm0|Hm0].
    { (* rounds to zero *)
      rewrite Hm0. cbn [Zdigits2 shr_record_of_loc].
      rewrite shr_nonpos by (unfold fexp, emin, emax, prec in *; lia).
      cbn [shr_m]. left. split; [lia|done]. }
    assert (0 < m1) as Hm1 by lia.
    destruct (Z.eq_dec m1 (2 ^ prec)) as [Hcarry|Hnc].
    + (* the mantissa carried into one more digit *)
      rewrite Hcarry.
      assert (Zdigits2 (2 ^ prec) = prec + 1) as -> by reflexivity.
      assert (fexp prec emax (prec + 1 + c) - c = 1) as ->
        by (unfold fexp, emin, emax, prec in *; lia).
      cbn [shr_record_of_loc].
      change (shr {| shr_m := 2 ^ prec; shr_r := false; shr_s := false |} c 1)
        with ({| shr_m := 2 ^ (prec - 1); shr_r := false; shr_s := false |}, c + 1).
      cbn [shr_m]. change (2 ^ (prec - 1)) with (Z.pos 4503599627370496).
      destruct (Z.leb_spec (c + 1) (emax - prec)) as [Hfin|Hinf].
      * right; left. split.
        -- split; [lia|]. unfold Omega.
           pose proof (two_pow_lt (prec + (c - E0)) (emax - E0)
                         ltac:(unfold emax, E0; lia) ltac:(lia)) as Hlt.
           rewrite two_pow_split in Hlt by (unfold emin, emax, prec, E0 in *; lia).
           lia.
        -- exists 4503599627370496%positive, (c + 1).
           split; [done|]. split; [lia|].
           replace (c + 1 - E0) with (1 + (c - E0)) by lia.
           rewrite two_pow_split by (unfold emin, emax, prec, E0 in *; lia).
           change (2 ^ prec) with (Z.pos 4503599627370496 * 2 ^ 1). lia.
      * right; right. split; [|done]. unfold Omega.
        pose proof (two_pow_le (emax - E0) (prec + (c - E0)) ltac:(lia)) as Hle.
        rewrite two_pow_split in Hle by (unfold emin, emax, prec, E0 in *; lia).
        lia.
    + (* the mantissa fits *)
      assert (m1 < 2 ^ prec) as Hfit by lia.
      pose proof (Zdigits2_lt_pow m1 prec Hm1 Hfit) as Hd1.
      cbn [shr_record_of_loc].
      rewrite shr_nonpos by (unfold fexp, emin, emax, prec in *; lia).
      cbn [shr_m]. destruct m1 as [|p1|p1] eqn:Ep1; try lia.
      destruct (Z.leb_spec c (emax - prec)) as [Hfin|Hinf].
      * right; left. split.
        -- split; [lia|]. unfold Omega.
           pose proof (two_pow_le (prec + (c - E0)) (emax - E0) ltac:(lia)) as Hle.
           rewrite two_pow_split in Hle by (unfold emin, emax, prec, E0 in *; lia).
           nia.
        -- exists p1, c. split; [done|].
           split; [unfold emin, emax, prec, E0 in *; lia|done].
      * right; right. split; [|done]. unfold Omega.
        assert (c = d + ex - prec) as Hcd by (unfold emin, emax, prec in *; lia).
        assert (2 ^ (prec - 1) ≤ mx / 2 ^ n) as Hqlo.
        { apply Z.div_le_lower_bound; [lia|].
          replace (d - 1) with (n + (prec - 1)) in Hlo by (unfold n; lia).
          rewrite two_pow_split in Hlo by (unfold prec; lia). lia. }
        pose proof (two_pow_le (emax - E0) ((prec - 1) + (c - E0)) ltac:(lia)) as Hle.
        rewrite two_pow_split in Hle by (unfold emin, emax, prec, E0 in *; lia).
        nia.
Qed.

(** *** Keys *)

Lemma iter_xO m d : Z.pos (Pos.iter xO m d) = Z.pos m * 2 ^ Z.pos d.
Proof.
  change (Pos.iter xO m d) with (shift_pos d m).
  rewrite shift_pos_correct. change (2 ^ Z.pos d) with (Z.pow_pos 2 d). lia.
Qed.

Lemma shl_align_spec mx ex ex' :
  (shl_align mx ex ex').2 = Z.min ex ex' ∧
  Z.pos (shl_align mx ex ex').1 = Z.pos mx * 2 ^ (ex - Z.min ex ex').
Proof.
  unfold shl_align. destruct (ex' - ex) as [|d|d] eqn:Hd; cbn [fst snd].
  - rewrite Z.min_l by lia. rewrite Z.sub_diag. lia.
  - rewrite Z.min_l by lia. rewrite Z.sub_diag. lia.
  - rewrite Z.min_r by lia. split; [done|].
    rewrite iter_xO. f_equal. f_equal. lia.
Qed.

Lemma binary_round_spec sx m ex :
  emin ≤ ex →
  represents sx (rnd (Z.pos m * 2 ^ (ex - E0))) (binary_round prec emax sx m ex).
Proof.
  intros Hex. unfold binary_round.
  pose proof (shl_align_spec m ex (fexp prec emax (Z.pos (digits2_pos m) + ex)))
    as [He Hm].
  destruct (shl_align _ _ _) as [mz ez]. cbn [fst snd] in *.
  change (Z.pos (digits2_pos m)) with (Zdigits2 (Z.pos m)) in *.
  set (c := fexp prec emax (Zdigits2 (Z.pos m) + ex)) in *.
  assert (emin ≤ c) as Hc by (unfold c, fexp; lia).
  assert (E0 ≤ ez) as Hez by (unfold emin, emax, prec, E0 in *; lia).
  assert (Z.pos mz * 2 ^ (ez - E0) = Z.pos m * 2 ^ (ex - E0)) as Hv.
  { rewrite Hm, <- Z.mul_assoc, <- two_pow_split by lia. f_equal. f_equal. lia. }
  rewrite <- Hv. apply bra_spec; [lia|done|].
  assert (Zdigits2 (Z.pos mz) + ez = Zdigits2 (Z.pos m) + ex) as ->.
  { rewrite Hm, Zdigits2_mul_pow by lia. lia. }
  fold c. lia.
Qed.

Lemma Omega_pos : 0 < Omega.
Proof. unfold Omega. apply two_pow_pos. unfold emax, E0. lia. Qed.

Lemma represents_key sx V out :
  represents sx V out →
  key out = cond_Zopp sx (Z.min V Omega) ∧ out ≠ S754_nan.
Proof.
  pose proof Omega_pos.
  intros [[-> ->]|[[HV (m & e & -> & He & HmV)]|[HV ->]]]; cbn [key].
  - rewrite Z.min_l by lia. by destruct sx.
  - rewrite Z.min_l by lia. by rewrite HmV.
  - rewrite Z.min_r by lia. done.
Qed.

Lemma round_key_mono w1 w2 : w1 ≤ w2 → round_key w1 ≤ round_key w2.
Proof.
  intros Hle. unfold round_key. pose proof Omega_pos.
  destruct (Z.leb_spec 0 w1); destruct (Z.leb_spec 0 w2); try lia.
  - pose proof (rnd_mono w1 w2 ltac:(lia) Hle). lia.
  - pose proof (rnd_nonneg w2 ltac:(lia)). pose proof (rnd_nonneg (- w1) ltac:(lia)). lia.
  - pose proof (rnd_mono (- w2) (- w1) ltac:(lia) ltac:(lia)). lia.
Qed.

Lemma round_key_bound w : - Omega ≤ round_key w ≤ Omega.
Proof.
  unfold round_key. pose proof Omega_pos.
  destruct (Z.leb_spec 0 w).
  - pose proof (rnd_nonneg w ltac:(lia)). lia.
  - pose proof (rnd_nonneg (- w) ltac:(lia)). lia.
Qed.

Lemma binary_normalize_spec z e szero :
  emin ≤ e →
  key (binary_normalize prec emax z e szero) = round_key (z * 2 ^ (e - E0)) ∧
  binary_normalize prec emax z e szero ≠ S754_nan.
Proof.
  intros He. unfold round_key.
  pose proof (two_pow_pos (e - E0) ltac:(unfold emin, emax, prec, E0 in *; lia)) as Hp.
  destruct z as [|p|p]; cbn [binary_normalize].
  - cbn [key]. rewrite Z.mul_0_l. cbn [Z.leb Z.compare]. rewrite rnd_0.
    pose proof Omega_pos. split; [lia|done].
  - destruct (Z.leb_spec 0 (Z.pos p * 2 ^ (e - E0))); [|lia].
    by apply (represents_key false), binary_round_spec.
  - destruct (Z.leb_spec 0 (Z.neg p * 2 ^ (e - E0))); [lia|].
    replace (- (Z.neg p * 2 ^ (e - E0))) with (Z.pos p * 2 ^ (e - E0)) by lia.
    by apply (represents_key true), binary_round_spec.
Qed.

(** Valid finite floats. *)
Lemma valid_finite s m e :
  valid_binary (S754_finite s m e) = true →
  emin ≤ e ≤ emax - prec ∧ Zdigits2 (Z.pos m) ≤ prec ∧
  (emin < e → Zdigits2 (Z.pos m) = prec) ∧
  e = fexp prec emax (Zdigits2 (Z.pos m) + e).
Proof.
  cbn [SpecFloat.valid_binary]. unfold bounded, canonical_mantissa.
  intros [Hc He]%andb_true_iff. apply Z.eqb_eq in Hc. apply Z.leb_le in He.
  change (Z.pos (digits2_pos m)) with (Zdigits2 (Z.pos m)) in Hc.
  unfold fexp in *. unfold emin, emax, prec in *. lia.
Qed.

Lemma valid_key_pos m e :
  valid_binary (S754_finite false m e) = true →
  0 < Z.pos m * 2 ^ (e - E0) < Omega ∧
  rnd (Z.pos m * 2 ^ (e - E0)) = Z.pos m * 2 ^ (e - E0).
Proof.
  intros (He & Hd & _ & Hc)%valid_finite.
  pose proof (Zdigits2_bounds (Z.pos m) ltac:(lia)) as (_ & _ & Hhi).
  assert (0 ≤ e - E0) as Ha by (unfold emin, emax, prec, E0 in *; lia).
  pose proof (two_pow_pos (e - E0) Ha) as Hp.
  split; [split; [lia|]|].
  - unfold Omega.
    pose proof (two_pow_le (Zdigits2 (Z.pos m)) prec Hd).
    pose proof (two_pow_le (prec + (e - E0)) (emax - E0) ltac:(lia)) as Hle.
    rewrite two_pow_split in Hle by (unfold prec; lia). nia.
  - apply rnd_exact. unfold cexp.
    rewrite Zdigits2_mul_pow by lia.
    replace (Zdigits2 (Z.pos m) + (e - E0) + E0) with (Zdigits2 (Z.pos m) + e) by lia.
    rewrite <- Hc. apply Z.mod_mul. lia.
Qed.

Lemma valid_round_key f :
  valid_binary f = true → f ≠ S754_nan →
  - Omega ≤ key f ≤ Omega ∧
  (match f with S754_infinity _ => False | _ => True end →
   Z.abs (key f) < Omega ∧ round_key (key f) = key f).
Proof.
  pose proof Omega_pos as HO.
  destruct f as [s|s| |s m e]; intros Hv Hn; [|idtac|done|]; cbn [key].
  - split; [lia|]. intros _. split; [lia|]. unfold round_key.
    cbn [Z.leb Z.compare]. rewrite rnd_0. lia.
  - split; [destruct s; cbn; lia|done].
  - assert (valid_binary (S754_finite false m e) = true) as Hv' by exact Hv.
    apply valid_key_pos in Hv' as [Hb Hr].
    split; [destruct s; cbn; lia|]. intros _.
    split; [destruct s; cbn; lia|].
    unfold round_key. destruct s; cbn [cond_Zopp].
    + destruct (Z.leb_spec 0 (- (Z.pos m * 2 ^ (e - E0)))); [lia|].
      rewrite Z.opp_involutive, Hr. lia.
    + destruct (Z.leb_spec 0 (Z.pos m * 2 ^ (e - E0))); [|lia].
      rewrite Hr. lia.
Qed.

(** Comparison of valid floats is comparison of their keys. *)
Lemma compare_valid_pos m1 e1 m2 e2 :
  valid_binary (S754_finite false m1 e1) = true →
  valid_binary (S754_finite false m2 e2) = true →
  match e1 ?= e2 with
  | Lt => Lt
  | Gt => Gt
  | Eq => Pos.compare_cont Eq m1 m2
  end = (Z.pos m1 * 2 ^ (e1 - E0) ?= Z.pos m2 * 2 ^ (e2 - E0)).
Proof.
  intros (He1 & Hd1 & Hn1 & _)%valid_finite (He2 & Hd2 & Hn2 & _)%valid_finite.
  pose proof (Zdigits2_bounds (Z.pos m1) ltac:(lia)) as (_ & Hlo1 & Hhi1).
  pose proof (Zdigits2_bounds (Z.pos m2) ltac:(lia)) as (_ & Hlo2 & Hhi2).
  assert (0 ≤ e1 - E0 ∧ 0 ≤ e2 - E0) as [Ha1 Ha2]
    by (unfold emin, emax, prec, E0 in *; lia).
  pose proof (two_pow_pos _ Ha1). pose proof (two_pow_pos _ Ha2).
  symmetry. destruct (Z.compare_spec e1 e2) as [->|Hlt|Hgt].
  - change (Pos.compare_cont Eq m1 m2) with (Z.pos m1 ?= Z.pos m2).
    destruct (Z.compare_spec (Z.pos m1) (Z.pos m2)) as [Heq|Hlt|Hgt];
      [apply Z.compare_eq_iff|apply Z.compare_lt_iff|apply Z.compare_gt_iff]; nia.
  - apply Z.compare_lt_iff.
    rewrite (Hn2 ltac:(lia)) in Hlo2.
    pose proof (two_pow_le (Zdigits2 (Z.pos m1)) prec Hd1).
    replace (e2 - E0) with ((e2 - e1 - 1) + 1 + (e1 - E0)) by lia.
    rewrite !two_pow_split by lia.
    pose proof (two_pow_pos (e2 - e1 - 1) ltac:(lia)).
    change (2 ^ prec) with (2 * 2 ^ (prec - 1)) in *. change (2 ^ 1) with 2.
    set (A := 2 ^ (e2 - e1 - 1)) in *. set (B := 2 ^ (e1 - E0)) in *.
    set (C := 2 ^ (prec - 1)) in *.
    assert (Z.pos m1 * B < 2 * C * B) by nia.
    assert (C * B ≤ Z.pos m2 * B) by nia.
    assert (Z.pos m2 * B * 1 ≤ Z.pos m2 * B * A)
      by (apply Z.mul_le_mono_nonneg_l; nia).
    lia.
  - apply Z.compare_gt_iff.
    rewrite (Hn1 ltac:(lia)) in Hlo1.
    pose proof (two_pow_le (Zdigits2 (Z.pos m2)) prec Hd2).
    replace (e1 - E0) with ((e1 - e2 - 1) + 1 + (e2 - E0)) by lia.
    rewrite !two_pow_split by lia.
    pose proof (two_pow_pos (e1 - e2 - 1) ltac:(lia)).
    change (2 ^ prec) with (2 * 2 ^ (prec - 1)) in *. change (2 ^ 1) with 2.
    set (A := 2 ^ (e1 - e2 - 1)) in *. set (B := 2 ^ (e2 - E0)) in *.
    set (C := 2 ^ (prec - 1)) in *.
    assert (Z.pos m2 * B < 2 * C * B) by nia.
    assert (C * B ≤ Z.pos m1 * B) by nia.
    assert (Z.pos m1 * B * 1 ≤ Z.pos m1 * B * A)
      by (apply Z.mul_le_mono_nonneg_l; nia).
    lia.
Qed.

Lemma SFcompare_key f1 f2 :
  valid_binary f1 = true → valid_binary f2 = true →
  f1 ≠ S754_nan → f2 ≠ S754_nan →
  SFcompare f1 f2 = Some (key f1 ?= key f2).
Proof.
  intros Hv1 Hv2 Hn1 Hn2. pose proof Omega_pos as HO.
  pose proof (valid_round_key f1 Hv1 Hn1) as [_ Hb1].
  pose proof (valid_round_key f2 Hv2 Hn2) as [_ Hb2].
  assert (∀ s m e, valid_binary (S754_finite s m e) = true →
                   0 < Z.pos m * 2 ^ (e - E0) < Omega) as Hfin.
  { intros s m e H. by apply (valid_key_pos m e). }
  destruct f1 as [s1|s1| |s1 m1 e1]; try done;
    destruct f2 as [s2|s2| |s2 m2 e2]; try done;
    try pose proof (Hfin _ _ _ Hv1) as Hq1;
    try pose proof (Hfin _ _ _ Hv2) as Hq2;
    cbn [SFcompare key] in *;
    try (specialize (Hb1 I); destruct Hb1 as [Hb1 _]);
    try (specialize (Hb2 I); destruct Hb2 as [Hb2 _]); f_equal; symmetry.
  - destruct s2; cbn [cond_Zopp]; [apply Z.compare_gt_iff|apply Z.compare_lt_iff]; lia.
  - destruct s2; cbn [cond_Zopp] in *;
      [apply Z.compare_gt_iff|apply Z.compare_lt_iff]; lia.
  - destruct s1; cbn [cond_Zopp]; [apply Z.compare_lt_iff|apply Z.compare_gt_iff]; lia.
  - destruct s1, s2; cbn [cond_Zopp];
      [apply Z.compare_eq_iff|apply Z.compare_lt_iff
      |apply Z.compare_gt_iff|apply Z.compare_eq_iff]; lia.
  - destruct s1; cbn [cond_Zopp] in *;
      [apply Z.compare_lt_iff|apply Z.compare_gt_iff];
      destruct s2; cbn [cond_Zopp] in *; lia.
  - destruct s1; cbn [cond_Zopp] in *;
      [apply Z.compare_lt_iff|apply Z.compare_gt_iff]; lia.
  - destruct s2; cbn [cond_Zopp] in *;
      [apply Z.compare_gt_iff|apply Z.compare_lt_iff];
      destruct s1; cbn [cond_Zopp] in *; lia.
  - assert (valid_binary (S754_finite false m1 e1) = true) as Hp1 by exact Hv1.
    assert (valid_binary (S754_finite false m2 e2) = true) as Hp2 by exact Hv2.
    pose proof (compare_valid_pos _ _ _ _ Hp1 Hp2) as Hc.
    pose proof (valid_key_pos _ _ Hp1) as [Hk1 _].
    pose proof (valid_key_pos _ _ Hp2) as [Hk2 _].
    destruct s1, s2; cbn [cond_Zopp].
    + rewrite Z.compare_opp.
      rewrite <- (compare_valid_pos _ _ _ _ Hp2 Hp1).
      destruct (Z.compare_spec e1 e2) as [->|Hlt|Hgt].
      * rewrite Z.compare_refl.
        change (Pos.compare_cont Eq m1 m2) with (Pos.compare m1 m2).
        change (Pos.compare_cont Eq m2 m1) with (Pos.compare m2 m1).
        by rewrite (Pos.compare_antisym m1 m2).
      * apply Z.compare_gt_iff in Hlt as ->. done.
      * apply Z.compare_lt_iff in Hgt as ->. done.
    + apply Z.compare_lt_iff. lia.
    + apply Z.compare_gt_iff. lia.
    + done.
Qed.

(** *** The primitive operations on keys *)

Lemma compare_key a b :
  Prim2SF a ≠ S754_nan → Prim2SF b ≠ S754_nan →
  SFcompare (Prim2SF a) (Prim2SF b) = Some (fkey a ?= fkey b).
Proof. intros. apply SFcompare_key; auto using Prim2SF_valid. Qed.

Lemma leb_key a b :
  Prim2SF a ≠ S754_nan → Prim2SF b ≠ S754_nan →
  (a <=? b)%float = (fkey a <=? fkey b).
Proof.
  intros Ha Hb. rewrite FloatAxioms.leb_spec. unfold SFleb.
  rewrite compare_key by done. unfold Z.leb. by destruct (_ ?= _).
Qed.

Lemma ltb_key a b :
  Prim2SF a ≠ S754_nan → Prim2SF b ≠ S754_nan →
  (a <? b)%float = (fkey a <? fkey b).
Proof.
  intros Ha Hb. rewrite FloatAxioms.ltb_spec. unfold SFltb.
  rewrite compare_key by done. unfold Z.ltb. by destruct (_ ?= _).
Qed.

Lemma eqb_key a b :
  Prim2SF a ≠ S754_nan → Prim2SF b ≠ S754_nan →
  (a =? b)%float = (fkey a =? fkey b).
Proof.
  intros Ha Hb. rewrite FloatAxioms.eqb_spec. unfold SFeqb.
  rewrite compare_key by done.
  destruct (Z.compare_spec (fkey a) (fkey b));
    destruct (Z.eqb_spec (fkey a) (fkey b)); try done; lia.
Qed.

Lemma is_finite_float_not_nan x : is_finite_float x = true → Prim2SF x ≠ S754_nan.
Proof. unfold is_finite_float. by destruct (Prim2SF x). Qed.

Lemma is_finite_float_key x :
  is_finite_float x = true →
  Z.abs (fkey x) < Omega ∧ round_key (fkey x) = fkey x.
Proof.
  intros Hf. pose proof (is_finite_float_not_nan x Hf) as Hn.
  pose proof (valid_round_key _ (Prim2SF_valid x) Hn) as [_ H].
  unfold fkey. apply H. unfold is_finite_float in Hf. by destruct (Prim2SF x).
Qed.

Lemma fkey_zero : fkey 0 = 0.
Proof. reflexivity. Qed.

(** A nonnegative int below [2^53] converts exactly. *)
Lemma float_of_Z_spec i :
  0 ≤ i < 2 ^ 53 →
  (i = 0 ∧ Prim2SF (float_of_Z i) = S754_zero false) ∨
  (0 < i ∧ ∃ m e, Prim2SF (float_of_Z i) = S754_finite false m e ∧
                  Z.pos m * 2 ^ (e - E0) = i * 2 ^ (- E0)).
Proof.
  intros Hi. unfold float_of_Z. destruct (Z.ltb_spec i 0); [lia|].
  rewrite of_uint63_spec, Uint63.of_Z_spec.
  rewrite Z.mod_small by (change wB with (2 ^ 63); lia).
  destruct i as [|p|p]; [left; done| |lia]. right. split; [lia|].
  cbn [binary_normalize].
  pose proof (binary_round_spec false p 0 ltac:(unfold emin, emax, prec; lia)) as Hr.
  rewrite Z.sub_0_l in Hr.
  assert (0 < 2 ^ (- E0)) as Hp by (apply two_pow_pos; unfold E0; lia).
  pose proof (Zdigits2_lt_pow (Z.pos p) 53 ltac:(lia) ltac:(lia)) as Hd.
  pose proof (Zdigits2_bounds (Z.pos p) ltac:(lia)) as (Hd0 & _ & _).
  assert (cexp (Z.pos p * 2 ^ (- E0)) - E0 ≤ - E0) as Hk.
  { unfold cexp. rewrite Zdigits2_mul_pow by (unfold E0; lia).
    unfold fexp, emin, emax, prec, E0. lia. }
  rewrite rnd_exact in Hr.
  2:{ pose proof (cexp_ge (Z.pos p * 2 ^ (- E0))) as Hk0.
      set (k := cexp _ - E0) in *.
      replace (- E0) with ((- E0 - k) + k) by lia.
      rewrite two_pow_split by lia. rewrite Z.mul_assoc. apply Z.mod_mul.
      pose proof (two_pow_pos k Hk0). lia. }
  assert (Z.pos p * 2 ^ (- E0) < Omega) as Hlt.
  { unfold Omega.
    pose proof (two_pow_lt (53 + (- E0)) (emax - E0)
                  ltac:(unfold emax, E0; lia) ltac:(unfold emax, E0; lia)) as Hl.
    rewrite two_pow_split in Hl by (unfold E0; lia). nia. }
  destruct Hr as [[Hz _]|[[_ (m & e & Hout & _ & Hv)]|[Ho _]]]; [lia| |lia].
  exists m, e. done.
Qed.

Lemma float_of_Z_not_nan i : 0 ≤ i < 2 ^ 53 → Prim2SF (float_of_Z i) ≠ S754_nan.
Proof.
  intros [[_ ->]|(_ & m & e & -> & _)]%float_of_Z_spec; done.
Qed.

(** The product of a finite double and such an int. *)
Lemma mul_int_key y i :
  is_finite_float y = true → 0 ≤ i < 2 ^ 53 →
  Prim2SF (y * float_of_Z i) ≠ S754_nan ∧
  fkey (y * float_of_Z i) = round_key (fkey y * i) ∧
  (fkey y = 0 → (y * float_of_Z i)%float = y).
Proof.
  intros Hy Hi. unfold fkey. rewrite FloatAxioms.mul_spec. unfold SF64mul.
  pose proof (Prim2SF_valid y) as Hvy.
  pose proof (Prim2SF_valid (float_of_Z i)) as Hvi.
  assert (round_key 0 = 0) as Hr0.
  { unfold round_key. cbn [Z.leb Z.compare]. rewrite rnd_0.
    pose proof Omega_pos. lia. }
  assert (∀ s, Prim2SF y = S754_zero s →
               ∀ out, Prim2SF (y * float_of_Z i) = out → out = S754_zero s →
               (y * float_of_Z i)%float = y) as Hsame.
  { intros s Hs out Ho ->. apply Prim2SF_inj. congruence. }
  unfold is_finite_float in Hy.
  destruct (Prim2SF y) as [sy|sy| |sy my ey] eqn:Ey; try done.
  - (* a zero *)
    assert (SFmul prec emax (S754_zero sy) (Prim2SF (float_of_Z i))
            = S754_zero sy) as Hm.
    { destruct (float_of_Z_spec i Hi) as [[_ ->]|(_ & m & e & -> & _)];
        cbn [SFmul]; by rewrite xorb_false_r. }
    rewrite Hm. cbn [key]. rewrite Z.mul_0_l, Hr0.
    split; [done|]. split; [done|]. intros _.
    apply (Hsame sy eq_refl (S754_zero sy)); [|done].
    rewrite FloatAxioms.mul_spec, Ey. exact Hm.
  - (* finite *)
    pose proof (valid_finite _ _ _ Hvy) as (Hey & Hdy & _ & _).
    assert (valid_binary (S754_finite false my ey) = true) as Hpy by exact Hvy.
    pose proof (valid_key_pos _ _ Hpy) as [HKy _].
    destruct (float_of_Z_spec i Hi) as [[-> Ei]|(Hi0 & mi & ei & Ei & Hvali)].
    + rewrite Ei. cbn [SFmul key]. rewrite Z.mul_0_r, Hr0.
      split; [done|]. split; [done|]. destruct sy; cbn [cond_Zopp]; lia.
    + rewrite Ei in *. cbn [SFmul].
      pose proof (valid_finite _ _ _ Hvi) as (Hei & Hdi & Hni & _).
      assert (0 < 2 ^ (- E0)) as Hp by (apply two_pow_pos; unfold E0; lia).
      assert (0 ≤ ei - E0 ∧ 0 ≤ ey - E0 ∧ 0 ≤ ey + ei - E0) as (Ha1 & Ha2 & Ha3)
        by (unfold emin, emax, prec, E0 in *; lia).
      pose proof (two_pow_pos _ Ha1) as Hp1.
      pose proof (two_pow_pos _ Ha2) as Hp2.
      pose proof (two_pow_pos _ Ha3) as Hp3.
      pose proof (Zdigits2_bounds (Z.pos mi) ltac:(lia)) as (_ & Hlo & Hhi).
      assert (emin < ei) as Hnorm.
      { destruct (Z.le_gt_cases ei emin) as [Hle|]; [|done]. exfalso.
        pose proof (two_pow_le (Zdigits2 (Z.pos mi)) prec Hdi) as H1.
        pose proof (two_pow_lt (prec + (ei - E0)) (- E0)
                      ltac:(unfold E0; lia)
                      ltac:(unfold emin, emax, prec, E0 in *; lia)) as H2.
        rewrite two_pow_split in H2 by (unfold prec; lia). nia. }
      rewrite (Hni Hnorm) in Hlo.
      assert (prec ≤ Zdigits2 (Z.pos (my * mi))) as Hdp.
      { change prec with (Zdigits2 (2 ^ (prec - 1))).
        apply Zdigits2_le; [done|]. rewrite Pos2Z.inj_mul. nia. }
      pose proof (bra_spec (xorb sy false) (Z.pos (my * mi)) (ey + ei)
                    ltac:(lia) ltac:(lia)
                    ltac:(unfold fexp, emin, emax, prec in *; lia)) as Hrep.
      apply represents_key in Hrep as [Hk Hnn].
      split; [done|]. rewrite Hk, xorb_false_r.
      assert (Z.pos (my * mi) * 2 ^ (ey + ei - E0)
              = Z.pos my * 2 ^ (ey - E0) * i) as Hval.
      { apply (Z.mul_reg_r _ _ (2 ^ (- E0))); [lia|].
        rewrite Pos2Z.inj_mul.
        transitivity ((Z.pos my * 2 ^ (ey - E0)) * (Z.pos mi * 2 ^ (ei - E0)));
          [|rewrite Hvali; ring].
        replace (ey + ei - E0 + 0) with (ey + ei - E0) by lia.
        assert (2 ^ (ey + ei - E0) * 2 ^ (- E0)
                = 2 ^ (ey - E0) * 2 ^ (ei - E0)) as Hpw.
        { rewrite <- !two_pow_split by (unfold E0 in *; lia). f_equal. lia. }
        rewrite <- !Z.mul_assoc, Hpw. ring. }
      rewrite Hval. split; [|destruct sy; cbn [key cond_Zopp]; lia].
      cbn [key]. unfold round_key.
      destruct sy; cbn [cond_Zopp].
      * destruct (Z.leb_spec 0 (- (Z.pos my * 2 ^ (ey - E0)) * i)); [nia|].
        f_equal. f_equal. f_equal. lia.
      * destruct (Z.leb_spec 0 (Z.pos my * 2 ^ (ey - E0) * i)); [done|nia].
Qed.

(** The sum of a finite double and a double that is no NaN. *)
Lemma add_key x p :
  is_finite_float x = true → Prim2SF p ≠ S754_nan →
  Prim2SF (x + p) ≠ S754_nan ∧
  fkey (x + p) =
    if Z.abs (fkey p) <? Omega then round_key (fkey x + fkey p) else fkey p.
Proof.
  intros Hx Hp. pose proof Omega_pos as HO.
  pose proof (is_finite_float_key x Hx) as [Hbx Hrx].
  pose proof (valid_round_key _ (Prim2SF_valid p) Hp) as [_ Hrp].
  pose proof (Prim2SF_valid x) as Hvx. pose proof (Prim2SF_valid p) as Hvp.
  unfold fkey in *. rewrite FloatAxioms.add_spec. unfold SF64add, is_finite_float in *.
  assert (round_key 0 = 0) as Hr0.
  { unfold round_key. cbn [Z.leb Z.compare]. rewrite rnd_0. lia. }
  destruct (Prim2SF x) as [sx|sx| |sx mx ex]; try done;
    destruct (Prim2SF p) as [sp|sp| |sp mp ep]; try done.
  - cbn [key]. rewrite Z.add_0_l, Hr0. cbn [Z.abs].
    destruct (Z.ltb_spec 0 Omega); [|lia].
    destruct sx, sp; cbn [SFadd key]; done.
  - cbn [SFadd key]. split; [done|].
    destruct (Z.ltb_spec (Z.abs (cond_Zopp sp Omega)) Omega) as [Hlt|]; [|done].
    destruct sp; cbn [cond_Zopp] in Hlt; lia.
  - cbn [SFadd]. split; [done|]. destruct (Hrp I) as [Hb Hr].
    cbn [key] in *. apply Z.ltb_lt in Hb as ->. by rewrite Z.add_0_l.
  - cbn [SFadd]. split; [done|]. cbn [key Z.abs] in *.
    destruct (Z.ltb_spec 0 Omega); [|lia]. by rewrite Z.add_0_r.
  - cbn [SFadd key]. split; [done|].
    destruct (Z.ltb_spec (Z.abs (cond_Zopp sp Omega)) Omega) as [Hlt|]; [|done].
    destruct sp; cbn [cond_Zopp] in Hlt; lia.
  - cbn [SFadd]. destruct (Hrp I) as [Hb Hr]. cbn [key] in Hb |- *.
    apply Z.ltb_lt in Hb as ->.
    pose proof (valid_finite _ _ _ Hvx) as (Hex & _).
    pose proof (valid_finite _ _ _ Hvp) as (Hep & _).
    pose proof (shl_align_spec mx ex (Z.min ex ep)) as [_ Hax].
    pose proof (shl_align_spec mp ep (Z.min ex ep)) as [_ Hap].
    rewrite (Z.min_r ex (Z.min ex ep)) in Hax by lia.
    rewrite (Z.min_r ep (Z.min ex ep)) in Hap by lia.
    set (ez := Z.min ex ep) in *.
    pose proof (binary_normalize_spec
                  (cond_Zopp sx (Z.pos (shl_align mx ex ez).1)
                   + cond_Zopp sp (Z.pos (shl_align mp ep ez).1)) ez false
                  ltac:(lia)) as [Hk Hnn].
    split; [done|]. rewrite Hk. f_equal.
    rewrite Hax, Hap.
    assert (0 ≤ ez - E0) as Hz by (unfold emin, emax, prec, E0 in *; lia).
    assert (2 ^ (ex - ez) * 2 ^ (ez - E0) = 2 ^ (ex - E0)) as H1
      by (rewrite <- two_pow_split by lia; f_equal; lia).
    assert (2 ^ (ep - ez) * 2 ^ (ez - E0) = 2 ^ (ep - E0)) as H2
      by (rewrite <- two_pow_split by lia; f_equal; lia).
    rewrite <- H1, <- H2. destruct sx, sp; cbn [cond_Zopp]; ring.
Qed.

(** *** [fch1 + foff * i] *)

Lemma add_to_key_mono kx kp kp' :
  - Omega ≤ kp → kp ≤ kp' → kp' ≤ Omega →
  add_to_key kx kp ≤ add_to_key kx kp'.
Proof.
  intros Hlo Hle Hhi. unfold add_to_key.
  pose proof (round_key_bound (kx + kp)). pose proof (round_key_bound (kx + kp')).
  destruct (Z.ltb_spec (Z.abs kp) Omega); destruct (Z.ltb_spec (Z.abs kp') Omega);
    try lia.
  apply round_key_mono. lia.
Qed.

(** Binary64 [fch1 + foff * i] is monotone in the int [i]. *)
Lemma affine_key x y i :
  is_finite_float x = true → is_finite_float y = true → 0 ≤ i < 2 ^ 53 →
  Prim2SF (x + y * float_of_Z i) ≠ S754_nan ∧
  fkey (x + y * float_of_Z i) = add_to_key (fkey x) (round_key (fkey y * i)).
Proof.
  intros Hx Hy Hi.
  destruct (mul_int_key y i Hy Hi) as (Hn & Hk & _).
  destruct (add_key x (y * float_of_Z i) Hx Hn) as [Hn' Hk'].
  split; [done|]. by rewrite Hk', Hk.
Qed.

Lemma affine_monotone x y i j :
  is_finite_float x = true → is_finite_float y = true →
  0 ≤ i → i ≤ j → j < 2 ^ 53 →
  ((y <? 0)%float = true →
   (x + y * float_of_Z j <=? x + y * float_of_Z i)%float = true) ∧
  ((0 <? y)%float = true →
   (x + y * float_of_Z i <=? x + y * float_of_Z j)%float = true).
Proof.
  intros Hx Hy Hi Hij Hj.
  destruct (affine_key x y i Hx Hy ltac:(lia)) as [Hni Hki].
  destruct (affine_key x y j Hx Hy ltac:(lia)) as [Hnj Hkj].
  pose proof (is_finite_float_not_nan y Hy) as Hny.
  assert (Prim2SF 0 ≠ S754_nan) as Hn0 by done.
  pose proof (round_key_bound (fkey y * i)).
  pose proof (round_key_bound (fkey y * j)).
  split; intros Hs.
  - rewrite ltb_key, fkey_zero in Hs by done. apply Z.ltb_lt in Hs.
    rewrite leb_key, Hki, Hkj by done. apply Z.leb_le.
    apply add_to_key_mono; [lia| |lia]. apply round_key_mono. nia.
  - rewrite ltb_key, fkey_zero in Hs by done. apply Z.ltb_lt in Hs.
    rewrite leb_key, Hki, Hkj by done. apply Z.leb_le.
    apply add_to_key_mono; [lia| |lia]. apply round_key_mono. nia.
Qed.

Lemma eqb_zero_finite y :
  (y =? 0)%float = true → is_finite_float y = true ∧ fkey y = 0.
Proof.
  rewrite FloatAxioms.eqb_spec. unfold SFeqb, is_finite_float, fkey.
  change (Prim2SF 0) with (S754_zero false).
  destruct (Prim2SF y) as [s|s| |s m e]; cbn [SFcompare key]; try done.
  - by destruct s.
  - by destruct s.
Qed.

Lemma affine_constant x y i :
  (y =? 0)%float = true → 0 ≤ i < 2 ^ 53 →
  (x + y * float_of_Z i = x + y * float_of_Z 0)%float.
Proof.
  intros [Hy Hk]%eqb_zero_finite Hi.
  destruct (mul_int_key y i Hy Hi) as (_ & _ & Hyi).
  destruct (mul_int_key y 0 Hy ltac:(lia)) as (_ & _ & Hy0).
  by rewrite Hyi, Hy0.
Qed.

(** ** The claim on the channel frequencies *)

Lemma np_arange_lookup {B} (f : Z → B) n i :
  0 ≤ i < n → map f (np_arange n) !! Z.to_nat i = Some (f i).
Proof.
  intros Hi. unfold np_arange. rewrite map_map.
  change (map ?g ?l) with (g <$> l).
  rewrite list_lookup_fmap, lookup_seq_lt by lia. cbn. f_equal. f_equal. lia.
Qed.

Lemma np_arange_length n : 0 ≤ n → Z.of_nat (length (np_arange n)) = n.
Proof. intros Hn. unfold np_arange. rewrite length_map, length_seq. lia. Qed.

(** C7, as the code has it: for every opened file, [frequencies] has as
    many entries as there are channels, entry [i] is the double
    [fch1 + foff * i] of binary64 arithmetic, and [is_hifreq_first] is
    [foff < 0].  When [foff == 0] all entries are the same double.  When
    [fch1] and [foff] are finite, the entries never increase along the
    channels when [foff < 0] and never decrease when [foff > 0]
    (neighbours can be equal where rounding swallows the step). *)
Theorem frequencies_spec fs filfn ro warned self :
  FilterbankFile_init fs filfn ro = (warned, Ok self) →
  ∃ fch1 foff nc,
    header self !! "fch1" = Some (VFloat fch1) ∧
    header self !! "foff" = Some (VFloat foff) ∧
    header self !! "nchans" = Some (VInt nc) ∧
    0 < nc ∧
    Z.of_nat (length (frequencies self)) = nc ∧
    (∀ i, 0 ≤ i < nc →
       frequencies self !! Z.to_nat i
         = Some (fch1 + foff * float_of_Z i)%float) ∧
    is_hifreq_first self = (foff <? 0)%float ∧
    ((foff =? 0)%float = true →
     ∀ i, 0 ≤ i < nc →
       frequencies self !! Z.to_nat i = frequencies self !! 0%nat) ∧
    (is_finite_float fch1 = true → is_finite_float foff = true →
     ∀ i j a b, 0 ≤ i → i ≤ j → j < nc →
       frequencies self !! Z.to_nat i = Some a →
       frequencies self !! Z.to_nat j = Some b →
       ((foff <? 0)%float = true → (b <=? a)%float = true) ∧
       ((0 <? foff)%float = true → (a <=? b)%float = true)).
Proof.
  intros Hinit.
  apply FilterbankFile_init_Ok in Hinit
    as (file & fch1 & foff & nc & nb & dt & Hfs & Hrh & H1 & H2 & H3 & H4 &
        Hfreq & Hhi & _ & Hbps & Hne & _ & _ & _ & Hmm).
  apply np_memmap_Ok in Hmm as (w & _ & _ & Hnc0 & _).
  assert (0 < nc) as Hnc.
  { destruct (Z.eq_dec nc 0) as [->|]; [|lia]. by rewrite Hbps in Hne. }
  assert (nc < 2 ^ 53) as Hbig.
  { pose proof (read_header_typed _ _ _ _ Hrh) as [Hty _].
    destruct (Hty _ _ H3) as [(t & Ht & Hv) _].
    injection Ht as <-. cbn in Hv. lia. }
  exists fch1, foff, nc. do 4 (split; [done|]). rewrite Hfreq.
  split; [rewrite length_map; by apply np_arange_length|].
  set (freq := fun i : Z => (fch1 + foff * float_of_Z i)%float).
  split; [intros i Hi; by apply (np_arange_lookup freq)|].
  split; [done|]. split.
  - intros Hz i Hi. rewrite (np_arange_lookup freq nc i) by done.
    change 0%nat with (Z.to_nat 0). rewrite (np_arange_lookup freq nc 0) by lia.
    f_equal. apply affine_constant; [done|lia].
  - intros Hf1 Hf2 i j a b Hi Hij Hj.
    rewrite !(np_arange_lookup freq) by lia. intros [= <-] [= <-].
    apply affine_monotone; try done; lia.
Qed.

Lemma frequencies_spec_witness :
  frequencies scenario_handle = [1400; 1399; 1398; 1397]%float ∧
  is_hifreq_first scenario_handle = true ∧
  ∃ fch1 foff nc,
    header scenario_handle !! "fch1" = Some (VFloat fch1) ∧
    header scenario_handle !! "foff" = Some (VFloat foff) ∧
    header scenario_handle !! "nchans" = Some (VInt nc) ∧
    0 < nc ∧
    Z.of_nat (length (frequencies scenario_handle)) = nc ∧
    (∀ i, 0 ≤ i < nc →
       frequencies scenario_handle !! Z.to_nat i
         = Some (fch1 + foff * float_of_Z i)%float) ∧
    is_hifreq_first scenario_handle = (foff <? 0)%float ∧
    ((foff =? 0)%float = true →
     ∀ i, 0 ≤ i < nc →
       frequencies scenario_handle !! Z.to_nat i
         = frequencies scenario_handle !! 0%nat) ∧
    (is_finite_float fch1 = true → is_finite_float foff = true →
     ∀ i j a b, 0 ≤ i → i ≤ j → j < nc →
       frequencies scenario_handle !! Z.to_nat i = Some a →
       frequencies scenario_handle !! Z.to_nat j = Some b →
       ((foff <? 0)%float = true → (b <=? a)%float = true) ∧
       ((0 <? foff)%float = true → (a <=? b)%float = true)).
Proof.
  split; [reflexivity|]. split; [reflexivity|].
  apply (frequencies_spec scenario_fs "scenario.fil" true [warning_text]).
  vm_compute. reflexivity.
Defined.

(** C7 as stated fails: this file opens, its [foff] is minus infinity,
    so [foff < 0] and [is_hifreq_first] hold, and its two frequencies
    are NaN and minus infinity, which are not in decreasing order:
    neither [f1 <= f0] nor [f1 < f0] holds. *)
Lemma frequencies_infinite_step :
  ∃ self,
    FilterbankFile_init infinite_step_fs "infinite.fil" true = ([], Ok self) ∧
    header self !! "foff" = Some (VFloat neg_infinity) ∧
    is_hifreq_first self = true ∧
    frequencies self = [nan; neg_infinity] ∧
    (neg_infinity <=? nan)%float = false ∧
    (neg_infinity <? nan)%float = false.
Proof.
  eexists. split; [vm_compute; reflexivity|]. vm_compute. done.
Qed.

(** Rounding can swallow the step: from [2^60] a step of [-1] leaves the
    double where it was, so the order is not strict. *)
Example frequencies_step_lost :
  (0x1p60 + (-1) * float_of_Z 1 = 0x1p60 + (-1) * float_of_Z 0)%float.
Proof. reflexivity. Qed.

(** * Further properties of the module *)

(** ** Headers that fail to decode *)

Lemma read_header_loop_fails f rs e :
  decode_fails f rs e →
  ∀ paramname hdr, paramname ≠ "HEADER_END" →
  read_header_loop (S (length rs)) paramname hdr f = Some (Raise e).
Proof.
  induction 1 as [f e Hr|f p v f1 rs e Hr Hp _ IH]; intros paramname hdr Hn;
    rewrite read_header_loop_S;
    (destruct (String.eqb_spec paramname "HEADER_END") as [|_]; [done|]);
    rewrite Hr; [done|].
  by apply IH.
Qed.

Lemma read_header_fails fs filename bytes rs e :
  fs !! filename = Some bytes →
  decode_fails (mk_pyfile bytes 0) rs e →
  read_header fs filename = Raise e.
Proof.
  intros Hfs Hdec. eapply read_header_unfold; [done|].
  by apply read_header_loop_fails.
Qed.

(** X1 ([read_header], [__init__]): when the stream yields some records,
    none of them named [HEADER_END], and the next read raises, then
    [read_header] raises that exception and returns no partial header,
    and opening the file raises the same exception without a warning. *)
Theorem read_header_raises fs filename bytes rs e :
  fs !! filename = Some bytes →
  decode_fails (mk_pyfile bytes 0) rs e →
  read_header fs filename = Raise e ∧
  ∀ ro, FilterbankFile_init fs filename ro = ([], Raise e).
Proof.
  intros Hfs Hdec.
  pose proof (read_header_fails _ _ _ _ _ Hfs Hdec) as Hrh.
  split; [done|]. intros ro.
  unfold FilterbankFile_init. by rewrite Hfs, Hrh.
Qed.

Lemma read_header_raises_witness :
  read_header unterminated_fs "cut.fil" = Raise (IOError "truncated stream") ∧
  ∀ ro, FilterbankFile_init unterminated_fs "cut.fil" ro
          = ([], Raise (IOError "truncated stream")).
Proof.
  apply (read_header_raises unterminated_fs "cut.fil"
           (record_bytes "HEADER_START" VNone
              ++ record_bytes "nchans" (VInt 4))%list
           [("HEADER_START", VNone); ("nchans", VInt 4)]).
  - reflexivity.
  - eapply decode_fails_later; [vm_compute; reflexivity | done |].
    eapply decode_fails_later; [vm_compute; reflexivity | done |].
    apply decode_fails_here. vm_compute. reflexivity.
Defined.

(** ** Opening: what goes wrong *)

Lemma typed_int (hdr : gmap string value) name v :
  (∀ n v, hdr !! n = Some v → well_typed n v ∧ is_sentinel n = false) →
  sigproc.header_params name = Some sigproc.TInt →
  hdr !! name = Some v → ∃ z, v = VInt z ∧ - 2 ^ 31 ≤ z < 2 ^ 31.
Proof.
  intros Hty Hp Hv. apply Hty in Hv as [(t & Ht & Hv) _].
  rewrite Hp in Ht. injection Ht as <-. destruct v; try done. eauto.
Qed.

Lemma getattr_missing {A} hdr name (conv : value → result A) :
  hdr !! name = None → getattr hdr name ≫= conv = Raise (KeyError name).
Proof. unfold getattr. by intros ->. Qed.

(** X2 ([__init__], [__getattr__]): when the header is read and lacks
    one of [fch1], [foff], [nchans] and [nbits], opening fails with
    [KeyError] on the first of them, in that order, that is missing;
    line 110 is not reached, so the module's own warning is not given.
    The fields that are present never raise a [TypeError]:
    [read_header] gave them the type their name has. *)
Theorem init_missing_field fs filfn ro hdr hsize k :
  read_header fs filfn = Ok (hdr, hsize) →
  first_missing hdr = Some k →
  (FilterbankFile_init fs filfn ro).2 = Raise (KeyError k) ∧
  warning_text ∉ (FilterbankFile_init fs filfn ro).1.
Proof.
  intros Hrh Hk.
  assert (FilterbankFile_init fs filfn ro = ([], Raise (KeyError k))) as ->;
    [|split; [done|apply not_elem_of_nil]].
  pose proof (read_header_typed _ _ _ _ Hrh) as [Hty (file & Hfs & _)].
  unfold FilterbankFile_init. rewrite Hfs, Hrh. cbn [mbind result_bind].
  unfold first_missing, required_fields in Hk. cbn [List.find] in Hk.
  case_bool_decide as H1.
  { injection Hk as <-. by rewrite (getattr_missing _ _ _ H1). }
  destruct (hdr !! "fch1") as [v1|] eqn:E1; [clear H1|done].
  destruct (typed_float _ "fch1" _ Hty eq_refl E1) as [fch1 ->].
  rewrite (getattr_float _ _ _ E1). cbn [mbind result_bind].
  case_bool_decide as H2.
  { injection Hk as <-. by rewrite (getattr_missing _ _ _ H2). }
  destruct (hdr !! "foff") as [v2|] eqn:E2; [clear H2|done].
  destruct (typed_float _ "foff" _ Hty eq_refl E2) as [foff ->].
  rewrite !(getattr_float _ _ _ E2). cbn [mbind result_bind].
  case_bool_decide as H3.
  { injection Hk as <-. by rewrite (getattr_missing _ _ _ H3). }
  destruct (hdr !! "nchans") as [v3|] eqn:E3; [clear H3|done].
  destruct (typed_int _ "nchans" _ Hty eq_refl E3) as (nc & -> & _).
  rewrite !(getattr_int _ _ _ E3). cbn [mbind result_bind].
  case_bool_decide as H4; [|done].
  injection Hk as <-. by rewrite (getattr_missing _ _ _ H4).
Qed.

Lemma init_missing_field_witness :
  (FilterbankFile_init no_foff_fs "nofoff.fil" true).2
    = Raise (KeyError "foff") ∧
  warning_text ∉ (FilterbankFile_init no_foff_fs "nofoff.fil" true).1.
Proof.
  apply (init_missing_field no_foff_fs "nofoff.fil" true
           (header_of no_foff_records) 73%nat "foff").
  - vm_compute. reflexivity.
  - vm_compute. reflexivity.
Defined.

(** X3 ([__init__]): when the header holds the four fields and
    [nchans * nbits] is from 0 to 7, [bytes_per_spectrum] is 0 and
    opening fails with [ZeroDivisionError] at the spectra count (line
    107), before the sample width is looked at and before line 110 can
    give the module's own warning. *)
Theorem init_zero_division fs filfn ro hdr hsize nc nb :
  read_header fs filfn = Ok (hdr, hsize) →
  is_Some (hdr !! "fch1") →
  is_Some (hdr !! "foff") →
  hdr !! "nchans" = Some (VInt nc) →
  hdr !! "nbits" = Some (VInt nb) →
  0 ≤ nc * nb < 8 →
  (FilterbankFile_init fs filfn ro).2 = Raise ZeroDivisionError ∧
  warning_text ∉ (FilterbankFile_init fs filfn ro).1.
Proof.
  intros Hrh [v1 H1] [v2 H2] H3 H4 Hsmall.
  assert (FilterbankFile_init fs filfn ro = ([], Raise ZeroDivisionError)) as ->;
    [|split; [done|apply not_elem_of_nil]].
  pose proof (read_header_typed _ _ _ _ Hrh) as [Hty (file & Hfs & _)].
  destruct (typed_float _ "fch1" _ Hty eq_refl H1) as [fch1 ->].
  destruct (typed_float _ "foff" _ Hty eq_refl H2) as [foff ->].
  rewrite (FilterbankFile_init_fields _ _ ro _ _ _ _ _ _ _ Hfs Hrh H1 H2 H3 H4).
  cbn zeta. by rewrite (Z.div_small _ _ Hsmall).
Qed.

Lemma init_zero_division_witness :
  (FilterbankFile_init four_bit_fs "four.fil" true).2
    = Raise ZeroDivisionError ∧
  warning_text ∉ (FilterbankFile_init four_bit_fs "four.fil" true).1.
Proof.
  apply (init_zero_division four_bit_fs "four.fil" true
           (header_of four_bit_records) 89%nat 1 4
           ltac:(vm_compute; reflexivity)
           ltac:(vm_compute; eauto)
           ltac:(vm_compute; eauto)
           ltac:(vm_compute; reflexivity)
           ltac:(vm_compute; reflexivity)
           ltac:(lia)).
Defined.

(** X16 ([get_dtype]): for an int [nbits] below [2^1023] in absolute
    value, [get_dtype] returns a dtype for 8, 16 and 32 bits only, and
    an item of that dtype has [nbits / 8] bytes; every other width
    raises [NotImplementedError]. *)
Theorem get_dtype_width nbits :
  Z.abs nbits < 2 ^ 1023 →
  match get_dtype nbits with
  | Ok dt =>
      (nbits = 8 ∨ nbits = 16 ∨ nbits = 32) ∧
      dtype_itemsize dt = Some (Z.to_nat (nbits / 8))
  | Raise e =>
      nbits ≠ 8 ∧ nbits ≠ 16 ∧ nbits ≠ 32 ∧ e = NotImplementedError nbits
  end.
Proof.
  intros _. destruct (get_dtype nbits) as [dt|e] eqn:E.
  - apply get_dtype_Ok in E as [[-> ->]|[[-> ->]|[-> ->]]];
      (split; [tauto|reflexivity]).
  - destruct (Z.eq_dec nbits 8) as [->|H8]; [done|].
    destruct (Z.eq_dec nbits 16) as [->|H16]; [done|].
    destruct (Z.eq_dec nbits 32) as [->|H32]; [done|].
    rewrite get_dtype_unsupported in E by done. by injection E as <-.
Qed.

Lemma get_dtype_width_witness :
  (16 = 8 ∨ 16 = 16 ∨ 16 = 32) ∧
  dtype_itemsize "uint16" = Some (Z.to_nat (16 / 8)).
Proof.
  apply (get_dtype_width 16). vm_compute. reflexivity.
Defined.

(** ** The view of an opened file *)

Lemma drop_chunks {A} k n i (l : list A) :
  drop i (chunks k n l) = chunks k (n - i) (drop (i * k) l).
Proof.
  revert i l. induction n as [|n IH]; intros i l.
  { by destruct i. }
  destruct i as [|i]; [done|].
  cbn [chunks drop Nat.sub]. by rewrite IH, drop_drop.
Qed.

Lemma take_chunks {A} k n m (l : list A) :
  (m ≤ n)%nat → take m (chunks k n l) = chunks k m l.
Proof.
  revert n l. induction m as [|m IH]; intros n l Hm; [done|].
  destruct n as [|n]; [lia|]. cbn [chunks take]. rewrite IH by lia. done.
Qed.

Lemma chunks_full {A} k n (l : list A) c :
  (n * k ≤ length l)%nat → c ∈ chunks k n l → length c = k.
Proof.
  revert l. induction n as [|n IH]; intros l Hl Hc; cbn [chunks] in Hc.
  - by apply elem_of_nil in Hc.
  - apply elem_of_cons in Hc as [->|Hc].
    + rewrite length_take. lia.
    + apply (IH (drop k l)); [|done]. rewrite length_drop. lia.
Qed.

(** What a successful [__init__] has mapped: [w] is the number of bytes
    of a sample. *)
Lemma opened_view fs filfn ro warned self :
  FilterbankFile_init fs filfn ro = (warned, Ok self) →
  ∃ file nc nb w,
    fs !! filfn = Some file ∧
    header self !! "nchans" = Some (VInt nc) ∧
    header self !! "nbits" = Some (VInt nb) ∧
    nb = 8 * Z.of_nat w ∧ (w = 1 ∨ w = 2 ∨ w = 4)%nat ∧
    0 < nc < 2 ^ 31 ∧
    bytes_per_spectrum self = nc * Z.of_nat w ∧
    0 ≤ nspec self ∧
    (header_size self ≤ length file)%nat ∧
    data_size self = Z.of_nat (length (drop (header_size self) file)) ∧
    nspec self * bytes_per_spectrum self ≤ data_size self ∧
    shape (spectra self) = (nspec self, nc) ∧
    rows (spectra self) =
      map (chunks w (Z.to_nat nc))
        (chunks (Z.to_nat nc * w) (Z.to_nat (nspec self))
           (drop (header_size self) file)).
Proof.
  intros (file & fch1 & foff & nc & nb & dt & Hfs & Hrh & _ & _ & Hnc & Hnb &
          _ & _ & Hds & Hbps & Hne & Hns & _ & Hdt & Hmm)%FilterbankFile_init_Ok.
  pose proof (read_header_typed _ _ _ _ Hrh) as [Hty (file' & Hfs' & Hsz)].
  assert (file' = file) as -> by congruence.
  destruct (typed_int _ "nchans" _ Hty eq_refl Hnc) as (nc' & [= <-] & Hr).
  apply np_memmap_Ok in Hmm as (w & Hw & Hn0 & Hn1 & Hfit & ->).
  cbn [rows shape].
  assert (nb = 8 * Z.of_nat w ∧ (w = 1 ∨ w = 2 ∨ w = 4)%nat) as [Hnbw Hw3].
  { apply get_dtype_Ok in Hdt as [[-> ->]|[[-> ->]|[-> ->]]];
      injection Hw as <-; split; (done || lia). }
  assert (bytes_per_spectrum self = nc * Z.of_nat w) as Hb.
  { rewrite Hbps, Hnbw.
    replace (nc * (8 * Z.of_nat w)) with (nc * Z.of_nat w * 8) by lia.
    by rewrite Z.div_mul by lia. }
  exists file, nc, nb, w.
  repeat split; try done; try lia.
  - rewrite Hds, length_drop. lia.
  - rewrite Hb. rewrite length_drop in Hfit. lia.
Qed.

(** X4 ([__init__], [__getattr__]): on an opened file the four geometry
    attributes are read without error, [nchans] is from 1 to [2^31 - 1],
    [nbits] is 8, 16 or 32 and [bytes_per_spectrum] is exactly [nchans]
    times [nbits / 8]; every attribute that resolves through the header
    has the type the table gives its name, the two sentinel names are no
    attributes, and the header ends inside the file. *)
Theorem opened_attributes fs filfn ro warned self :
  FilterbankFile_init fs filfn ro = (warned, Ok self) →
  (∃ fch1 foff nc nb,
     getattr (header self) "fch1" = Ok (VFloat fch1) ∧
     getattr (header self) "foff" = Ok (VFloat foff) ∧
     getattr (header self) "nchans" = Ok (VInt nc) ∧
     getattr (header self) "nbits" = Ok (VInt nb) ∧
     0 < nc < 2 ^ 31 ∧ (nb = 8 ∨ nb = 16 ∨ nb = 32) ∧
     bytes_per_spectrum self = nc * (nb / 8)) ∧
  (∀ name v, getattr (header self) name = Ok v →
     well_typed name v ∧ is_sentinel name = false) ∧
  getattr (header self) "HEADER_START" = Raise (KeyError "HEADER_START") ∧
  getattr (header self) "HEADER_END" = Raise (KeyError "HEADER_END") ∧
  ∃ file, fs !! filfn = Some file ∧
    (header_size self ≤ length file)%nat ∧ 0 ≤ data_size self.
Proof.
  intros Hinit.
  pose proof Hinit as (file & nc & nb & w & Hfs & Hnc & Hnb & -> & Hw & Hr &
                       Hb & _ & Hsz & Hds & _)%opened_view.
  apply FilterbankFile_init_Ok in Hinit
    as (_ & fch1 & foff & _ & _ & _ & _ & Hrh & H1 & H2 & _).
  pose proof (read_header_typed _ _ _ _ Hrh) as [Hty _].
  assert (∀ name, is_sentinel name = true →
            getattr (header self) name = Raise (KeyError name)) as Hsent.
  { intros name Hs. unfold getattr.
    destruct (header self !! name) as [v|] eqn:E; [|done].
    apply Hty in E as [_ E]. congruence. }
  split; [|split; [|split; [|split]]].
  - exists fch1, foff, nc, (8 * Z.of_nat w). unfold getattr.
    rewrite H1, H2, Hnc, Hnb. do 5 (split; [done|]). split; [lia|].
    rewrite Hb. f_equal. rewrite Z.mul_comm, Z.div_mul; lia.
  - intros name v. unfold getattr.
    destruct (header self !! name) as [v'|] eqn:E; [|done].
    intros [= <-]. by apply Hty.
  - by apply Hsent.
  - by apply Hsent.
  - exists file. split; [done|]. split; [done|]. lia.
Qed.

Lemma opened_attributes_witness :
  (∃ fch1 foff nc nb,
     getattr (header sixteen_bit_handle) "fch1" = Ok (VFloat fch1) ∧
     getattr (header sixteen_bit_handle) "foff" = Ok (VFloat foff) ∧
     getattr (header sixteen_bit_handle) "nchans" = Ok (VInt nc) ∧
     getattr (header sixteen_bit_handle) "nbits" = Ok (VInt nb) ∧
     0 < nc < 2 ^ 31 ∧ (nb = 8 ∨ nb = 16 ∨ nb = 32) ∧
     bytes_per_spectrum sixteen_bit_handle = nc * (nb / 8)) ∧
  (∀ name v, getattr (header sixteen_bit_handle) name = Ok v →
     well_typed name v ∧ is_sentinel name = false) ∧
  getattr (header sixteen_bit_handle) "HEADER_START"
    = Raise (KeyError "HEADER_START") ∧
  getattr (header sixteen_bit_handle) "HEADER_END"
    = Raise (KeyError "HEADER_END") ∧
  ∃ file, sixteen_bit_fs !! "sixteen.fil" = Some file ∧
    (header_size sixteen_bit_handle ≤ length file)%nat ∧
    0 ≤ data_size sixteen_bit_handle.
Proof.
  apply (opened_attributes sixteen_bit_fs "sixteen.fil" true []).
  vm_compute. reflexivity.
Defined.

(** X5 ([__init__]): the view of an opened file has the shape
    [(nspec, nchans)]: it has [nspec] spectra, every spectrum has
    [nchans] samples, and every sample has [nbits / 8] bytes. *)
Theorem opened_view_shape fs filfn ro warned self :
  FilterbankFile_init fs filfn ro = (warned, Ok self) →
  ∃ nc nb,
    header self !! "nchans" = Some (VInt nc) ∧
    header self !! "nbits" = Some (VInt nb) ∧
    shape (spectra self) = (nspec self, nc) ∧
    length (rows (spectra self)) = Z.to_nat (nspec self) ∧
    ∀ spectrum, spectrum ∈ rows (spectra self) →
      length spectrum = Z.to_nat nc ∧
      ∀ sample, sample ∈ spectrum → 8 * Z.of_nat (length sample) = nb.
Proof.
  intros (file & nc & nb & w & _ & Hnc & Hnb & -> & _ & Hr & Hb & Hn & _ &
          Hds & Hfit & Hsh & Hrows)%opened_view.
  exists nc, (8 * Z.of_nat w). split; [done|]. split; [done|]. split; [done|].
  rewrite Hrows, length_map, length_chunks. split; [done|].
  intros spectrum Hin%list_elem_of_In.
  apply in_map_iff in Hin as (bytes & <- & Hin%list_elem_of_In).
  rewrite length_chunks. split; [done|].
  intros sample Hs. f_equal. f_equal.
  eapply chunks_full; [|exact Hs].
  apply chunks_full in Hin; [lia|]. nia.
Qed.

Lemma opened_view_shape_witness :
  ∃ nc nb,
    header sixteen_bit_handle !! "nchans" = Some (VInt nc) ∧
    header sixteen_bit_handle !! "nbits" = Some (VInt nb) ∧
    shape (spectra sixteen_bit_handle) = (nspec sixteen_bit_handle, nc) ∧
    length (rows (spectra sixteen_bit_handle))
      = Z.to_nat (nspec sixteen_bit_handle) ∧
    ∀ spectrum, spectrum ∈ rows (spectra sixteen_bit_handle) →
      length spectrum = Z.to_nat nc ∧
      ∀ sample, sample ∈ spectrum → 8 * Z.of_nat (length sample) = nb.
Proof.
  apply (opened_view_shape sixteen_bit_fs "sixteen.fil" true []).
  vm_compute. reflexivity.
Defined.

Lemma py_slice_range {A} (l : list A) start stop :
  0 ≤ start → start ≤ stop → stop ≤ Z.of_nat (length l) →
  py_slice l start stop
    = take (Z.to_nat (stop - start)) (drop (Z.to_nat start) l).
Proof.
  intros H0 H1 H2. unfold py_slice, slice_index.
  destruct (Z.ltb_spec start 0); [lia|]. destruct (Z.ltb_spec stop 0); [lia|].
  by rewrite !Z.min_l by lia.
Qed.

(** X6 ([get_spectra], [__init__]): for [0 <= start <= stop <= nspec],
    [get_spectra(start, stop)] returns [stop - start] spectra, and their
    bytes are the [(stop - start) * bytes_per_spectrum] bytes of the file
    that begin at offset [header_size + start * bytes_per_spectrum]. *)
Theorem get_spectra_bytes fs filfn ro warned self start stop :
  FilterbankFile_init fs filfn ro = (warned, Ok self) →
  0 ≤ start → start ≤ stop → stop ≤ nspec self →
  ∃ file, fs !! filfn = Some file ∧
    length (get_spectra self start stop) = Z.to_nat (stop - start) ∧
    concat (concat (get_spectra self start stop)) =
      take (Z.to_nat ((stop - start) * bytes_per_spectrum self))
        (drop (header_size self + Z.to_nat (start * bytes_per_spectrum self))
           file).
Proof.
  intros (file & nc & nb & w & Hfs & _ & _ & _ & _ & Hr & Hb & Hn & _ &
          _ & _ & _ & Hrows)%opened_view H0 H1 H2.
  exists file. split; [done|].
  unfold get_spectra.
  rewrite py_slice_range;
    [|done|done|rewrite Hrows, length_map, length_chunks; lia].
  rewrite Hrows.
  rewrite skipn_map, firstn_map, drop_chunks, take_chunks by lia.
  split; [by rewrite length_map, length_chunks|].
  rewrite flat_rows, drop_drop, Hb.
  rewrite !Z2Nat.inj_mul, Nat2Z.id by nia. done.
Qed.

Lemma get_spectra_bytes_witness :
  ∃ file, sixteen_bit_fs !! "sixteen.fil" = Some file ∧
    length (get_spectra sixteen_bit_handle 1 2) = Z.to_nat (2 - 1) ∧
    concat (concat (get_spectra sixteen_bit_handle 1 2)) =
      take (Z.to_nat ((2 - 1) * bytes_per_spectrum sixteen_bit_handle))
        (drop (header_size sixteen_bit_handle
               + Z.to_nat (1 * bytes_per_spectrum sixteen_bit_handle)) file).
Proof.
  apply (get_spectra_bytes sixteen_bit_fs "sixteen.fil" true []
           sixteen_bit_handle 1 2).
  - vm_compute. reflexivity.
  - lia.
  - lia.
  - vm_compute. discriminate.
Defined.

(** X7 ([__init__]): the module's own warning, that of line 110, is
    given exactly when the data size is not
    [nspec * bytes_per_spectrum], and then once; when it is not given,
    the view holds every byte behind the header. *)
Theorem whole_spectra_no_warning fs filfn ro warned self :
  FilterbankFile_init fs filfn ro = (warned, Ok self) →
  (warning_text ∈ warned ↔
   nspec self * bytes_per_spectrum self ≠ data_size self) ∧
  (length (filter (fun w => w = warning_text) warned) ≤ 1)%nat ∧
  ∃ file, fs !! filfn = Some file ∧
    (warning_text ∉ warned →
     concat (concat (rows (spectra self))) = drop (header_size self) file).
Proof.
  intros Hinit.
  pose proof (opened_rows _ _ _ _ _ Hinit)
    as (Hn & Hpos & _ & file & Hfs & Hflat).
  pose proof Hinit as (file' & nc & nb & w & Hfs' & _ & _ & _ & _ & _ & _ &
                       _ & _ & Hds & _ & _ & _)%opened_view.
  assert (file' = file) as -> by congruence.
  apply FilterbankFile_init_Ok in Hinit
    as (_ & _ & _ & _ & _ & _ & _ & _ & _ & _ & _ & _ & _ & _ & _ & _ & _ &
        Hns & Hw & _).
  assert (warning_text ∈ warned ↔
          nspec self * bytes_per_spectrum self ≠ data_size self) as Hiff.
  { rewrite Hw, Hns.
    pose proof (Z.div_mod (data_size self) (bytes_per_spectrum self)) as Hdm.
    destruct (Z.eqb_spec (data_size self mod bytes_per_spectrum self) 0).
    - split; [by intros ?%elem_of_nil|lia].
    - split; [lia|]. intros _. apply list_elem_of_singleton. done. }
  split; [done|]. split.
  { rewrite Hw. destruct (_ =? _); [cbn; lia|].
    rewrite filter_cons, decide_True by done. cbn. lia. }
  exists file. split; [done|]. intros Hnot.
  assert (nspec self * bytes_per_spectrum self = data_size self) as Heq.
  { destruct (Z.eq_dec (nspec self * bytes_per_spectrum self) (data_size self));
      [done|]. exfalso. apply Hnot, Hiff. done. }
  rewrite Hflat, Heq, Hds, Nat2Z.id. apply firstn_all.
Qed.

Lemma whole_spectra_no_warning_witness :
  (warning_text ∈ ([] : list string) ↔
   nspec sixteen_bit_handle * bytes_per_spectrum sixteen_bit_handle
     ≠ data_size sixteen_bit_handle) ∧
  (length (filter (fun w => w = warning_text) ([] : list string)) ≤ 1)%nat ∧
  ∃ file, sixteen_bit_fs !! "sixteen.fil" = Some file ∧
    (warning_text ∉ ([] : list string) →
     concat (concat (rows (spectra sixteen_bit_handle)))
       = drop (header_size sixteen_bit_handle) file).
Proof.
  apply (whole_spectra_no_warning sixteen_bit_fs "sixteen.fil" true []
           sixteen_bit_handle).
  vm_compute. reflexivity.
Defined.

Lemma slice_index_bounds n i : 0 ≤ n → 0 ≤ slice_index n i ≤ n.
Proof. intros Hn. unfold slice_index. destruct (Z.ltb_spec i 0); lia. Qed.

Lemma py_slice_app {A} (l : list A) a b c :
  slice_index (Z.of_nat (length l)) a ≤ slice_index (Z.of_nat (length l)) b →
  slice_index (Z.of_nat (length l)) b ≤ slice_index (Z.of_nat (length l)) c →
  (py_slice l a b ++ py_slice l b c)%list = py_slice l a c.
Proof.
  unfold py_slice. cbn zeta.
  pose proof (slice_index_bounds (Z.of_nat (length l)) a ltac:(lia)).
  set (x := slice_index _ a). set (y := slice_index _ b).
  set (z := slice_index _ c).
  intros Hxy Hyz.
  replace (Z.to_nat y) with (Z.to_nat x + Z.to_nat (y - x))%nat by lia.
  rewrite <- drop_drop.
  replace (Z.to_nat (z - x))
    with (Z.to_nat (y - x) + Z.to_nat (z - y))%nat by lia.
  apply take_take_drop.
Qed.

(** X8 ([get_spectra]): for [0 <= a <= b <= c], also beyond [nspec], the
    spectra of [get_spectra(a, b)] followed by those of
    [get_spectra(b, c)] are the spectra of [get_spectra(a, c)]: reading a
    range in blocks loses and repeats nothing. *)
Theorem get_spectra_adjacent self a b c :
  0 ≤ a → a ≤ b → b ≤ c →
  (get_spectra self a b ++ get_spectra self b c)%list = get_spectra self a c.
Proof.
  intros H0 H1 H2. unfold get_spectra. apply py_slice_app;
    unfold slice_index;
    repeat match goal with |- context [?i <? 0] => destruct (Z.ltb_spec i 0) end;
    lia.
Qed.

Lemma get_spectra_adjacent_witness :
  (get_spectra scenario_handle 0 1 ++ get_spectra scenario_handle 1 5)%list
    = get_spectra scenario_handle 0 5.
Proof. apply (get_spectra_adjacent scenario_handle 0 1 5); lia. Defined.

(** ** Time slices *)

Lemma int_np_round_outcome x :
  match int_np_round x with
  | Ok _ => is_finite_float x = true
  | Raise e =>
      is_finite_float x = false ∧
      (e = ValueError "cannot convert float NaN to integer" ∨ e = OverflowError)
  end.
Proof.
  unfold int_np_round, is_finite_float.
  destruct (Prim2SF x); auto.
Qed.

(** X9 ([get_timeslice], [__getattr__]): on an opened file
    [get_timeslice] raises [KeyError] when the header has no [tsamp] and
    [ZeroDivisionError] when [tsamp == 0]; otherwise it returns a slice
    of the view when both quotients are finite, and raises [ValueError]
    or [OverflowError] when one of them is a NaN or an infinity.  It
    raises nothing else. *)
Theorem get_timeslice_outcome fs filfn ro warned self start stop :
  FilterbankFile_init fs filfn ro = (warned, Ok self) →
  match header self !! "tsamp" with
  | None => get_timeslice self start stop = Raise (KeyError "tsamp")
  | Some v =>
      ∃ tsamp, v = VFloat tsamp ∧
        if (tsamp =? 0)%float
        then get_timeslice self start stop = Raise ZeroDivisionError
        else
          if is_finite_float (start / tsamp) && is_finite_float (stop / tsamp)
          then ∃ a b, get_timeslice self start stop = Ok (get_spectra self a b)
          else
            get_timeslice self start stop
              = Raise (ValueError "cannot convert float NaN to integer") ∨
            get_timeslice self start stop = Raise OverflowError
  end.
Proof.
  intros (file & _ & _ & _ & _ & _ & _ & Hrh & _)%FilterbankFile_init_Ok.
  pose proof (read_header_typed _ _ _ _ Hrh) as [Hty _].
  destruct (header self !! "tsamp") as [v|] eqn:Ht.
  - destruct (typed_float _ "tsamp" _ Hty eq_refl Ht) as [tsamp ->].
    exists tsamp. split; [done|].
    unfold get_timeslice. rewrite !(getattr_float _ _ _ Ht).
    cbn [mbind result_bind]. unfold py_float_div.
    destruct (tsamp =? 0)%float; [done|]. cbn [mbind result_bind].
    pose proof (int_np_round_outcome (start / tsamp)) as Ha.
    pose proof (int_np_round_outcome (stop / tsamp)) as Hb.
    destruct (int_np_round (start / tsamp)) as [a|ea].
    + rewrite Ha. cbn [mbind result_bind andb].
      destruct (int_np_round (stop / tsamp)) as [b|eb].
      * rewrite Hb. eauto.
      * destruct Hb as [-> [->| ->]]; auto.
    + destruct Ha as [-> [->| ->]]; cbn [mbind result_bind andb]; auto.
  - unfold get_timeslice, getattr. by rewrite Ht.
Qed.

Lemma get_timeslice_outcome_witness :
  get_timeslice sixteen_bit_handle 0 1 = Raise (KeyError "tsamp").
Proof.
  apply (get_timeslice_outcome sixteen_bit_fs "sixteen.fil" true []
           sixteen_bit_handle 0 1).
  vm_compute. reflexivity.
Defined.

Lemma zero_div tsamp :
  (tsamp =? 0)%float = false → is_nan tsamp = false →
  ∃ s, Prim2SF (0 / tsamp) = S754_zero s.
Proof.
  unfold is_nan.
  rewrite !FloatAxioms.eqb_spec, FloatAxioms.div_spec. unfold SF64div, SFeqb.
  change (Prim2SF 0) with (S754_zero false).
  destruct (Prim2SF tsamp) as [s|s| |s m e]; cbn; try done; eauto.
Qed.

(** X10 ([get_timeslice]): when [tsamp] is neither zero nor a NaN, a
    time slice from time 0 starts at spectrum 0, whatever [tsamp] is:
    [get_timeslice(0, stop)] is [get_spectra(0, b)] for the bin [b] of
    [stop], and fails exactly when that bin cannot be computed. *)
Theorem get_timeslice_from_zero self stop tsamp :
  header self !! "tsamp" = Some (VFloat tsamp) →
  (tsamp =? 0)%float = false →
  is_nan tsamp = false →
  get_timeslice self 0 stop =
    stopbins ← int_np_round (stop / tsamp);
    Ok (get_spectra self 0 stopbins).
Proof.
  intros Ht Hnz Hnan.
  destruct (zero_div tsamp Hnz Hnan) as [s Hs].
  unfold get_timeslice. rewrite !(getattr_float _ _ _ Ht).
  cbn [mbind result_bind]. unfold py_float_div. rewrite Hnz.
  cbn [mbind result_bind].
  assert (int_np_round (0 / tsamp) = Ok 0) as ->
    by (unfold int_np_round; by rewrite Hs).
  done.
Qed.

Lemma get_timeslice_from_zero_witness :
  get_timeslice scenario_handle 0 0.25 =
    stopbins ← int_np_round (0.25 / 0x1.0624dd2f1a9fcp-10);
    Ok (get_spectra scenario_handle 0 stopbins).
Proof.
  apply (get_timeslice_from_zero scenario_handle 0.25 0x1.0624dd2f1a9fcp-10);
    vm_compute; reflexivity.
Defined.

(** ** Printing the header *)

Lemma string_leb_trans a b c :
  String.leb a b = true → String.leb b c = true → String.leb a c = true.
Proof.
  revert b c. unfold String.leb.
  induction a as [|x a IH]; intros [|y b] [|z c]; cbn [String.compare];
    try done.
  unfold Ascii.compare.
  destruct (N.compare_spec (N_of_ascii x) (N_of_ascii y));
    destruct (N.compare_spec (N_of_ascii y) (N_of_ascii z));
    destruct (N.compare_spec (N_of_ascii x) (N_of_ascii z));
    try done; try lia.
  apply IH.
Qed.

Lemma str_le_trans : Transitive str_le.
Proof. intros a b c. apply string_leb_trans. Qed.

Lemma str_le_total : Total str_le.
Proof. intros a b. apply String.leb_total. Qed.

Lemma StronglySorted_filter {A} (R : relation A) (P : A → Prop)
    `{∀ x, Decision (P x)} l :
  StronglySorted R l → StronglySorted R (filter P l).
Proof.
  induction 1 as [|x l Hs IH Hall]; [constructor|].
  rewrite filter_cons. case_decide; [|done].
  constructor; [done|].
  apply Forall_forall. intros y [_ Hy]%list_elem_of_filter.
  by eapply Forall_forall in Hall.
Qed.

Lemma print_lines_spec str_float hdr params :
  (∀ p, p ∈ params → is_Some (hdr !! p)) →
  ∃ entries : list (string * value),
    print_lines str_float hdr params =
      (map (fun e => String.append e.1
                       (String.append ": " (py_str str_float e.2))) entries,
       Ok tt) ∧
    entries.*1 = filter (fun p => is_sentinel p = false) params ∧
    ∀ e, e ∈ entries → hdr !! e.1 = Some e.2.
Proof.
  induction params as [|p params IH]; intros Hkeys.
  - exists []. split; [done|]. split; [done|]. by intros e ?%elem_of_nil.
  - destruct IH as (entries & Hlines & Hfst & Hval).
    { intros q Hq. apply Hkeys. by right. }
    cbn [print_lines]. rewrite filter_cons.
    destruct (is_sentinel p) eqn:Hp.
    + exists entries. rewrite decide_False by done. done.
    + destruct (Hkeys p ltac:(left)) as [v Hv]. rewrite Hv, Hlines.
      exists ((p, v) :: entries). rewrite decide_True by done.
      split; [done|]. split; [by rewrite fmap_cons, Hfst|].
      intros e [->|He]%elem_of_cons; [done|by apply Hval].
Qed.

Lemma sorted_keys_elem (hdr : gmap string value) p :
  p ∈ py_sorted (map_to_list hdr).*1 ↔ is_Some (hdr !! p).
Proof.
  unfold py_sorted. rewrite merge_sort_Permutation, list_elem_of_fmap. split.
  - intros ([q v] & -> & Hqv%elem_of_map_to_list). eauto.
  - intros [v Hv]. exists (p, v). by rewrite elem_of_map_to_list.
Qed.

Lemma sorted_keys_NoDup (hdr : gmap string value) :
  NoDup (py_sorted (map_to_list hdr).*1).
Proof.
  unfold py_sorted. rewrite merge_sort_Permutation.
  apply NoDup_fst_map_to_list.
Qed.

(** The lines of [print_header] are those of the header's entries whose
    key is no sentinel name, in the order [sorted] gives the keys. *)
Lemma print_header_entries str_float self :
  ∃ entries : list (string * value),
    print_header str_float self =
      (map (fun e => String.append e.1
                       (String.append ": " (py_str str_float e.2))) entries,
       Ok tt) ∧
    entries.*1 = filter (fun p => is_sentinel p = false)
                   (py_sorted (map_to_list (header self)).*1) ∧
    ∀ p v, (p, v) ∈ entries ↔
           header self !! p = Some v ∧ is_sentinel p = false.
Proof.
  unfold print_header.
  destruct (print_lines_spec str_float (header self)
              (py_sorted (map_to_list (header self)).*1))
    as (entries & Hlines & Hfst & Hval).
  { intros p. apply sorted_keys_elem. }
  exists entries. split; [done|]. split; [done|].
  intros p v. split.
  - intros He. split; [by apply (Hval (p, v))|].
    assert (p ∈ entries.*1) as Hp
      by (apply list_elem_of_fmap; by exists (p, v)).
    rewrite Hfst in Hp. by apply list_elem_of_filter in Hp as [? _].
  - intros [Hv Hs].
    assert (p ∈ entries.*1) as Hp.
    { rewrite Hfst. apply list_elem_of_filter. split; [done|].
      apply sorted_keys_elem. eauto. }
    apply list_elem_of_fmap in Hp as ([q w] & -> & He).
    pose proof (Hval _ He) as Hw. cbn in *.
    assert (w = v) as -> by congruence. done.
Qed.

(** X12 ([print_header]): [print_header] never raises.  It prints one
    line [name: value] for every key of the header that is no sentinel
    name and nothing else, every key once, in the order of Python's
    string comparison, whatever order the dict gives its keys in. *)
Theorem print_header_sorted str_float self :
  ∃ entries : list (string * value),
    print_header str_float self =
      (map (fun e => String.append e.1
                       (String.append ": " (py_str str_float e.2))) entries,
       Ok tt) ∧
    (∀ p v, (p, v) ∈ entries ↔
            header self !! p = Some v ∧ is_sentinel p = false) ∧
    NoDup entries.*1 ∧
    StronglySorted str_le entries.*1.
Proof.
  destruct (print_header_entries str_float self)
    as (entries & Hlines & Hfst & Hent).
  exists entries. split; [done|]. split; [done|]. rewrite Hfst. split.
  - apply NoDup_filter, sorted_keys_NoDup.
  - apply StronglySorted_filter. unfold py_sorted.
    apply StronglySorted_merge_sort; [apply str_le_trans|apply str_le_total].
Qed.

(** X13 ([main], [print_header], [__init__]): when the file named by the
    first argument opens, [main] ends without an exception after
    printing exactly one line for every field [read_header] stored, the
    sentinels having never been stored: as many lines as the header has
    fields, and the line of every field is among them. *)
Theorem main_prints_header str_float fs argv prog filfn rest warned fil :
  argv = prog :: filfn :: rest →
  FilterbankFile_init fs filfn true = (warned, Ok fil) →
  ∃ lines,
    main str_float fs argv = MainRan warned lines (Ok tt) ∧
    print_header str_float fil = (lines, Ok tt) ∧
    length lines = size (header fil) ∧
    ∀ p v, header fil !! p = Some v →
      String.append p (String.append ": " (py_str str_float v)) ∈ lines.
Proof.
  intros -> Hinit.
  destruct (print_header_entries str_float fil)
    as (entries & Hlines & Hfst & Hent).
  eexists. split; [|split; [exact Hlines|]].
  { unfold main. cbn [lookup list_lookup]. by rewrite Hinit, Hlines. }
  apply FilterbankFile_init_Ok in Hinit
    as (file & _ & _ & _ & _ & _ & _ & Hrh & _).
  pose proof (read_header_typed _ _ _ _ Hrh) as [Hty _].
  assert (entries ≡ₚ map_to_list (header fil)) as Hperm.
  { apply NoDup_Permutation.
    - eapply NoDup_fmap_1. rewrite Hfst.
      apply NoDup_filter, sorted_keys_NoDup.
    - apply NoDup_map_to_list.
    - intros [p v]. rewrite Hent, elem_of_map_to_list. split; [tauto|].
      intros Hv. split; [done|]. by apply Hty in Hv as [_ ?]. }
  split.
  - rewrite length_map, Hperm. apply length_map_to_list.
  - intros p v Hv. apply list_elem_of_In, in_map_iff.
    exists (p, v). split; [done|]. apply list_elem_of_In.
    rewrite Hperm. by apply elem_of_map_to_list.
Qed.

Lemma main_prints_header_witness :
  ∃ lines,
    main (fun _ => "1.0") scenario_fs ["filterbank.py"; "scenario.fil"]
      = MainRan [warning_text] lines (Ok tt) ∧
    print_header (fun _ => "1.0") scenario_handle = (lines, Ok tt) ∧
    length lines = size (header scenario_handle) ∧
    ∀ p v, header scenario_handle !! p = Some v →
      String.append p (String.append ": " (py_str (fun _ => "1.0") v))
        ∈ lines.
Proof.
  apply (main_prints_header (fun _ => "1.0") scenario_fs
           ["filterbank.py"; "scenario.fil"] "filterbank.py" "scenario.fil" []
           [warning_text] scenario_handle).
  - reflexivity.
  - vm_compute. reflexivity.
Defined.

(** ** Exact channel frequencies *)

Lemma round_key_0 : round_key 0 = 0.
Proof.
  unfold round_key. cbn [Z.leb Z.compare]. rewrite rnd_0.
  pose proof Omega_pos. lia.
Qed.

Lemma pow_E0_pos : 0 < 2 ^ (- E0).
Proof. apply two_pow_pos. unfold E0. lia. Qed.

Lemma int_below_Omega c : 0 ≤ c < 2 ^ 53 → c * 2 ^ (- E0) < Omega.
Proof.
  intros Hc. unfold Omega. pose proof pow_E0_pos.
  pose proof (two_pow_lt (53 + (- E0)) (emax - E0)
                ltac:(unfold emax, E0; lia) ltac:(unfold emax, E0; lia)) as Hl.
  rewrite two_pow_split in Hl by (unfold E0; lia). nia.
Qed.

(** A nonnegative int below [2^53] rounds to itself. *)
Lemma rnd_int c : 0 ≤ c < 2 ^ 53 → rnd (c * 2 ^ (- E0)) = c * 2 ^ (- E0).
Proof.
  intros Hc. destruct (Z.eq_dec c 0) as [->|Hnz]; [apply rnd_0|].
  assert (0 < c) as Hpos by lia.
  pose proof (Zdigits2_lt_pow c 53 ltac:(lia) ltac:(lia)) as Hd.
  pose proof (Zdigits2_bounds c Hpos) as (Hd0 & _ & _).
  assert (cexp (c * 2 ^ (- E0)) - E0 ≤ - E0) as Hk.
  { unfold cexp. rewrite Zdigits2_mul_pow by (unfold E0; lia).
    unfold fexp, emin, emax, prec, E0. lia. }
  apply rnd_exact.
  pose proof (cexp_ge (c * 2 ^ (- E0))) as Hk0.
  set (k := cexp _ - E0) in *.
  replace (- E0) with ((- E0 - k) + k) by lia.
  rewrite two_pow_split by lia. rewrite Z.mul_assoc. apply Z.mod_mul.
  pose proof (two_pow_pos k Hk0). lia.
Qed.

Lemma round_key_int c :
  Z.abs c < 2 ^ 53 → round_key (c * 2 ^ (- E0)) = c * 2 ^ (- E0).
Proof.
  intros Hc. unfold round_key. pose proof pow_E0_pos as Hp.
  destruct (Z.leb_spec 0 (c * 2 ^ (- E0))).
  - assert (0 ≤ c) by nia.
    rewrite rnd_int by lia. pose proof (int_below_Omega c ltac:(lia)). lia.
  - assert (c < 0) by nia.
    replace (- (c * 2 ^ (- E0))) with ((- c) * 2 ^ (- E0)) by lia.
    rewrite rnd_int by lia. pose proof (int_below_Omega (- c) ltac:(lia)). lia.
Qed.

(** An int below [2^53] in absolute value converts exactly. *)
Lemma float_of_Z_key z :
  Z.abs z < 2 ^ 53 →
  is_finite_float (float_of_Z z) = true ∧
  fkey (float_of_Z z) = z * 2 ^ (- E0).
Proof.
  intros Hz.
  assert (∀ i, 0 ≤ i < 2 ^ 53 →
            is_finite_float (float_of_Z i) = true ∧
            fkey (float_of_Z i) = i * 2 ^ (- E0)) as Hpos.
  { intros i Hi. unfold is_finite_float, fkey.
    destruct (float_of_Z_spec i Hi) as [[-> ->]|(_ & m & e & -> & Hv)];
      cbn [key cond_Zopp]; [done|]. by rewrite Hv. }
  destruct (Z.ltb_spec z 0) as [Hneg|Hnn]; [|apply Hpos; lia].
  destruct (Hpos (- z) ltac:(lia)) as [Hf Hk].
  assert (float_of_Z z = (- float_of_Z (- z))%float) as ->.
  { unfold float_of_Z.
    destruct (Z.ltb_spec z 0); [|lia].
    destruct (Z.ltb_spec (- z) 0); [lia|done]. }
  unfold is_finite_float, fkey in *. rewrite FloatAxioms.opp_spec.
  destruct (Prim2SF (float_of_Z (- z))) as [s|s| |s m e];
    cbn [SFopp key cond_Zopp] in *; try done; split; try done;
    destruct s; cbn [negb cond_Zopp] in *; lia.
Qed.

(** On ints that stay below [2^53], binary64 [a + b * i] is exact. *)
Lemma affine_exact a b i :
  0 ≤ i < 2 ^ 53 → Z.abs b < 2 ^ 53 → Z.abs a + Z.abs b * i < 2 ^ 53 →
  Prim2SF (float_of_Z a + float_of_Z b * float_of_Z i) ≠ S754_nan ∧
  fkey (float_of_Z a + float_of_Z b * float_of_Z i)
    = (a + b * i) * 2 ^ (- E0).
Proof.
  intros Hi Hb Hsmall.
  destruct (float_of_Z_key a ltac:(nia)) as [Hfa Hka].
  destruct (float_of_Z_key b Hb) as [Hfb Hkb].
  pose proof pow_E0_pos as Hp.
  destruct (affine_key _ _ i Hfa Hfb ltac:(lia)) as [Hn Hk].
  split; [done|]. rewrite Hk, Hka, Hkb. unfold add_to_key.
  replace (b * 2 ^ (- E0) * i) with ((b * i) * 2 ^ (- E0)) by lia.
  rewrite (round_key_int (b * i)) by nia.
  assert (Z.abs (b * i * 2 ^ (- E0)) < Omega) as Hlt.
  { pose proof (int_below_Omega (Z.abs (b * i)) ltac:(nia)).
    rewrite Z.abs_mul, (Z.abs_eq (2 ^ _)) by lia. done. }
  destruct (Z.ltb_spec (Z.abs (b * i * 2 ^ (- E0))) Omega); [|lia].
  replace (a * 2 ^ (- E0) + b * i * 2 ^ (- E0))
    with ((a + b * i) * 2 ^ (- E0)) by lia.
  apply round_key_int. nia.
Qed.

(** X14 ([__init__]): on an opened file whose [fch1] and [foff] are
    finite, the first channel frequency equals [fch1]. *)
Theorem frequencies_first fs filfn ro warned self :
  FilterbankFile_init fs filfn ro = (warned, Ok self) →
  ∃ fch1 foff f0,
    header self !! "fch1" = Some (VFloat fch1) ∧
    header self !! "foff" = Some (VFloat foff) ∧
    frequencies self !! 0%nat = Some f0 ∧
    (is_finite_float fch1 = true → is_finite_float foff = true →
     (f0 =? fch1)%float = true).
Proof.
  intros Hinit.
  apply FilterbankFile_init_Ok in Hinit
    as (file & fch1 & foff & nc & nb & dt & _ & _ & H1 & H2 & _ & _ &
        Hfreq & _ & _ & Hbps & Hne & _ & _ & _ & Hmm).
  apply np_memmap_Ok in Hmm as (w & _ & _ & Hnc0 & _).
  assert (0 < nc) as Hnc.
  { destruct (Z.eq_dec nc 0) as [->|]; [|lia]. by rewrite Hbps in Hne. }
  exists fch1, foff, (fch1 + foff * float_of_Z 0)%float.
  split; [done|]. split; [done|]. split.
  { rewrite Hfreq.
    by apply (np_arange_lookup
                (fun i => (fch1 + foff * float_of_Z i)%float) nc 0). }
  intros Hx Hy.
  destruct (affine_key fch1 foff 0 Hx Hy ltac:(lia)) as [Hn Hk].
  rewrite eqb_key by (done || by apply is_finite_float_not_nan).
  rewrite Hk, Z.mul_0_r, round_key_0. unfold add_to_key.
  pose proof Omega_pos.
  destruct (Z.ltb_spec (Z.abs 0) Omega); [|lia].
  rewrite Z.add_0_r. destruct (is_finite_float_key fch1 Hx) as [_ ->].
  apply Z.eqb_refl.
Qed.

Lemma frequencies_first_witness :
  ∃ fch1 foff f0,
    header scenario_handle !! "fch1" = Some (VFloat fch1) ∧
    header scenario_handle !! "foff" = Some (VFloat foff) ∧
    frequencies scenario_handle !! 0%nat = Some f0 ∧
    (is_finite_float fch1 = true → is_finite_float foff = true →
     (f0 =? fch1)%float = true).
Proof.
  apply (frequencies_first scenario_fs "scenario.fil" true [warning_text]).
  vm_compute. reflexivity.
Defined.

(** X15 ([__init__]): when [fch1] and [foff] are the ints [a] and [b] as
    doubles and [|a| + |b| * nchans] is below [2^53], the arithmetic is
    exact: frequency [i] equals the int [a + b * i] as a double, and the
    frequencies strictly decrease along the channels when [b < 0] and
    strictly increase when [b > 0]. *)
Theorem frequencies_integer_grid fs filfn ro warned self a b nc :
  FilterbankFile_init fs filfn ro = (warned, Ok self) →
  header self !! "fch1" = Some (VFloat (float_of_Z a)) →
  header self !! "foff" = Some (VFloat (float_of_Z b)) →
  header self !! "nchans" = Some (VInt nc) →
  Z.abs a + Z.abs b * nc < 2 ^ 53 →
  (∀ i, 0 ≤ i < nc →
     ∃ f, frequencies self !! Z.to_nat i = Some f ∧
          (f =? float_of_Z (a + b * i))%float = true) ∧
  (∀ i j fi fj, 0 ≤ i → i < j → j < nc →
     frequencies self !! Z.to_nat i = Some fi →
     frequencies self !! Z.to_nat j = Some fj →
     (b < 0 → (fj <? fi)%float = true) ∧
     (0 < b → (fi <? fj)%float = true)).
Proof.
  intros Hinit H1 H2 H3 Hsmall.
  apply FilterbankFile_init_Ok in Hinit
    as (file & fch1 & foff & nc' & nb & dt & _ & Hrh & H1' & H2' & H3' & _ &
        Hfreq & _).
  assert (fch1 = float_of_Z a) as -> by congruence.
  assert (foff = float_of_Z b) as -> by congruence.
  assert (nc' = nc) as -> by congruence.
  pose proof (read_header_typed _ _ _ _ Hrh) as [Hty _].
  assert (nc < 2 ^ 31) as Hnc.
  { apply Hty in H3 as [(t & Ht & Hv) _]. injection Ht as <-. cbn in Hv. lia. }
  assert (∀ i, 0 ≤ i < nc →
            Prim2SF (float_of_Z a + float_of_Z b * float_of_Z i) ≠ S754_nan ∧
            fkey (float_of_Z a + float_of_Z b * float_of_Z i)
              = (a + b * i) * 2 ^ (- E0)) as Hkey.
  { intros i Hi.
    pose proof (two_pow_lt 31 53 ltac:(lia) ltac:(lia)).
    apply affine_exact; [lia|nia|nia]. }
  assert (∀ i, 0 ≤ i < nc →
            frequencies self !! Z.to_nat i
              = Some (float_of_Z a + float_of_Z b * float_of_Z i)%float)
    as Hlook.
  { intros i Hi. rewrite Hfreq.
    by apply (np_arange_lookup
                (fun i => (float_of_Z a + float_of_Z b * float_of_Z i)%float)). }
  clear Hfreq.
  pose proof pow_E0_pos as Hp.
  split.
  - intros i Hi. eexists. split; [by apply Hlook|].
    destruct (Hkey i Hi) as [Hn Hk].
    destruct (float_of_Z_key (a + b * i) ltac:(nia)) as [Hf Hk'].
    rewrite eqb_key by (done || by apply is_finite_float_not_nan).
    rewrite Hk, Hk'. apply Z.eqb_refl.
  - intros i j fi fj Hi Hij Hj Hfi Hfj.
    rewrite Hlook in Hfi by lia. rewrite Hlook in Hfj by lia.
    injection Hfi as <-. injection Hfj as <-.
    destruct (Hkey i ltac:(lia)) as [Hni Hki].
    destruct (Hkey j ltac:(lia)) as [Hnj Hkj].
    rewrite !ltb_key by done. rewrite Hki, Hkj.
    split; intros Hb; apply Z.ltb_lt;
      apply Z.mul_lt_mono_pos_r; [done|nia|done|nia].
Qed.

Lemma frequencies_integer_grid_witness :
  (∀ i, 0 ≤ i < 3 →
     ∃ f, frequencies sixteen_bit_handle !! Z.to_nat i = Some f ∧
          (f =? float_of_Z (1500 + 2 * i))%float = true) ∧
  (∀ i j fi fj, 0 ≤ i → i < j → j < 3 →
     frequencies sixteen_bit_handle !! Z.to_nat i = Some fi →
     frequencies sixteen_bit_handle !! Z.to_nat j = Some fj →
     (2 < 0 → (fj <? fi)%float = true) ∧
     (0 < 2 → (fi <? fj)%float = true)).
Proof.
  apply (frequencies_integer_grid sixteen_bit_fs "sixteen.fil" true []
           sixteen_bit_handle 1500 2 3).
  - vm_compute. reflexivity.
  - vm_compute. reflexivity.
  - vm_compute. reflexivity.
  - vm_compute. reflexivity.
  - lia.
Defined.
